(** * ldraw-packer-service: the reference resolver and packer of [src/index.js]

    A shallow embedding of [packLDrawModel] and [parseObject] together with
    the part of the [/pack] handler that turns the outcome of a pack into a
    response, and the properties of the packer proved over it.

    Conventions of the embedding.
    - A JavaScript string is a [string]: a sequence of code units below 256.
      The white-space class, [toLowerCase] and [trim] are the JavaScript ones
      restricted to that range.
    - The library on disk is a function [disk] from the path handed to
      [fs.readFileSync] to the content read, [None] when the read throws.
      The disk does not change during a pack.
    - The four accumulators [parseObject] receives by reference are the
      fields of one [Store] threaded through the calls; the store also keeps
      a log of the effects performed (reads, pushes on the Not-found list,
      error lines on the console).
    - [parseObject] recurses as deep as the references nest and does not
      return on a cyclic reference, so it takes a bound on the depth of the
      call stack: [None] is the exhausted stack. *)

From Stdlib Require Import String Ascii List Arith Bool Lia.
From stdpp Require Import gmap strings list.
Import ListNotations.

(** ** JavaScript strings *)

Module Js.

Definition LF : ascii := "010"%char.
Definition CR : ascii := "013"%char.
Definition nl : string := String LF EmptyString.

(** [' '] or ['\t'], the two characters the line scan skips. *)
Definition isSpaceOrTab (c : ascii) : bool :=
  (c =? " ")%char || (c =? "009")%char.

(** The class [\s] of a regular expression, which is also what [trim]
    removes: TAB, LF, VT, FF, CR, SP and NBSP. *)
Definition isWhiteSpace (c : ascii) : bool :=
  (c =? "009")%char || (c =? "010")%char || (c =? "011")%char ||
  (c =? "012")%char || (c =? "013")%char || (c =? " ")%char ||
  (c =? "160")%char.

Fixpoint dropWhile (p : ascii -> bool) (s : string) : string :=
  match s with
  | EmptyString => EmptyString
  | String c s' => if p c then dropWhile p s' else s
  end.

Fixpoint mapChars (f : ascii -> ascii) (s : string) : string :=
  match s with
  | EmptyString => EmptyString
  | String c s' => String (f c) (mapChars f s')
  end.

Definition trimStart (s : string) : string := dropWhile isWhiteSpace s.
Definition trimEnd (s : string) : string :=
  String.rev (dropWhile isWhiteSpace (String.rev s)).
Definition trim (s : string) : string := trimEnd (trimStart s).

Definition startsWith (pre s : string) : bool := String.prefix pre s.
Definition endsWith (suf s : string) : bool :=
  String.prefix (String.rev suf) (String.rev s).

(** [s.substring(n)] *)
Fixpoint substringFrom (n : nat) (s : string) : string :=
  match n, s with
  | O, _ => s
  | S n', String _ s' => substringFrom n' s'
  | S _, EmptyString => EmptyString
  end.

Definition lowerChar (c : ascii) : ascii :=
  let n := nat_of_ascii c in
  if ((65 <=? n) && (n <=? 90)) ||
     ((192 <=? n) && (n <=? 222) && negb (n =? 215))
  then ascii_of_nat (n + 32) else c.

Definition toLowerCase (s : string) : string := mapChars lowerChar s.

(** [s.replace(/\\/g, '/')] *)
Definition slashes (s : string) : string :=
  mapChars (fun c => if (c =? "\")%char then "/"%char else c) s.

(** [s.indexOf('\r\n') !== -1] *)
Fixpoint hasCRLF (s : string) : bool :=
  match s with
  | String c ((String c' _) as s') =>
      ((c =? CR)%char && (c' =? LF)%char) || hasCRLF s'
  | _ => false
  end.

(** [s.replace(/\r\n/g, '\n')] *)
Fixpoint replaceCRLF (s : string) : string :=
  match s with
  | String c s' =>
      match s' with
      | String c' s'' =>
          if (c =? CR)%char && (c' =? LF)%char
          then String LF (replaceCRLF s'')
          else String c (replaceCRLF s')
      | EmptyString => s
      end
  | EmptyString => EmptyString
  end.

(** [s.split(sep)] for a separator of one character: never empty. *)
Fixpoint split (sep : ascii) (s : string) : list string :=
  match s with
  | EmptyString => [EmptyString]
  | String c s' =>
      if (c =? sep)%char then EmptyString :: split sep s'
      else match split sep s' with
           | h :: t => String c h :: t
           | [] => [String c EmptyString]
           end
  end.

(** [s.split(/\s+/)]: the pieces between the maximal runs of white space;
    [inRun] says that the previous character belonged to such a run. *)
Fixpoint splitRuns (inRun : bool) (s : string) : list string :=
  match s with
  | EmptyString => [EmptyString]
  | String c s' =>
      if isWhiteSpace c
      then (if inRun then splitRuns true s'
            else EmptyString :: splitRuns true s')
      else match splitRuns false s' with
           | h :: t => String c h :: t
           | [] => [String c EmptyString]
           end
  end.

Definition splitWhiteSpace (s : string) : list string := splitRuns false s.

(** [a.join(sep)] *)
Definition join (sep : string) (a : list string) : string :=
  String.concat sep a.

(** A string is truthy when it is not empty; [null] is falsy. *)
Definition truthy (s : string) : bool := negb (s =? "")%string.
Definition truthyOpt (o : option string) : bool :=
  match o with Some s => truthy s | None => false end.

End Js.

(** ** [path.join] of Node, POSIX flavour *)

Module Path.

(** One step of the normalisation over the segments seen so far, the most
    recent first. *)
Definition pushSegment (allowAboveRoot : bool) (stack : list string)
    (seg : string) : list string :=
  if (seg =? "")%string || (seg =? ".")%string then stack
  else if (seg =? "..")%string then
    match stack with
    | top :: rest =>
        if (top =? "..")%string
        then (if allowAboveRoot then seg :: stack else stack)
        else rest
    | [] => if allowAboveRoot then [seg] else []
    end
  else seg :: stack.

Definition normalizeSegments (allowAboveRoot : bool) (segs : list string)
    : list string :=
  rev (fold_left (pushSegment allowAboveRoot) segs []).

Definition normalize (p : string) : string :=
  if (p =? "")%string then "."
  else
    let isAbsolute := Js.startsWith "/" p in
    let trailing := Js.endsWith "/" p in
    let body :=
      Js.join "/" (normalizeSegments (negb isAbsolute) (Js.split "/" p)) in
    if (body =? "")%string
    then (if isAbsolute then "/" else if trailing then "./" else ".")
    else (if isAbsolute then "/" else "") +:+ body +:+
         (if trailing then "/" else "").

Definition join (args : list string) : string :=
  match filter (fun a => Js.truthy a = true) args with
  | [] => "."
  | parts => normalize (Js.join "/" parts)
  end.

End Path.

(** ** The store of one packing operation *)

(** The effects a pack performs, in the order they happen. *)
Inductive event : Type :=
| Read (path : string)            (* fs.readFileSync(path, ...) is called *)
| NotFoundPush (name : string)    (* listOfNotFound.push(name) *)
| ConsoleMissing (name : string). (* console.log('Error: File object not found:', name) *)

(** [objectsPaths], [objectsContents], [pathMap] and [listOfNotFound] of
    [packLDrawModel], and the log of effects. *)
Record Store : Type := mkStore {
  objectsPaths : list string;
  objectsContents : list string;
  pathMap : gmap string string;
  listOfNotFound : list string;
  effects : list event
}.

Definition emptyStore : Store := mkStore [] [] ∅ [] [].

Definition logEffect (e : event) (st : Store) : Store :=
  mkStore (objectsPaths st) (objectsContents st) (pathMap st)
          (listOfNotFound st) (effects st ++ [e]).

(** [listOfNotFound.push(name)] *)
Definition pushNotFound (name : string) (st : Store) : Store :=
  mkStore (objectsPaths st) (objectsContents st) (pathMap st)
          (listOfNotFound st ++ [name]) (effects st ++ [NotFoundPush name]).

(** [pathMap[name] = path] *)
Definition setPath (name path : string) (st : Store) : Store :=
  mkStore (objectsPaths st) (objectsContents st) (<[name := path]> (pathMap st))
          (listOfNotFound st) (effects st).

(** [objectsPaths.push(path); objectsContents.push(content)] *)
Definition pushObject (path content : string) (st : Store) : Store :=
  mkStore (objectsPaths st ++ [path]) (objectsContents st ++ [content])
          (pathMap st) (listOfNotFound st) (effects st).

(** [pathMap] is a plain object [{}]: a key it does not own is looked up in
    [Object.prototype], whose properties (those of V8) are functions, and
    [__proto__] the prototype itself; all of them are truthy. *)
Definition objectPrototype : list string :=
  [ "constructor"; "__defineGetter__"; "__defineSetter__"; "hasOwnProperty";
    "__lookupGetter__"; "__lookupSetter__"; "isPrototypeOf";
    "propertyIsEnumerable"; "toString"; "valueOf"; "__proto__";
    "toLocaleString" ].

Definition inherited (key : string) : bool :=
  existsb (String.eqb key) objectPrototype.

(** The truth value of [pathMap[key]]. *)
Definition mapped (m : gmap string string) (key : string) : bool :=
  match m !! key with
  | Some path => Js.truthy path
  | None => inherited key
  end.

(** ** Libraries and models used as examples *)

Module Scenario.

Definition HOME : string := "/home/u".

(** A placement line for [name]: colour 16, at the origin, not rotated. *)
Definition placement (name : string) : string :=
  "1 16 0 0 0 1 0 0 0 1 0 0 0 1 " +:+ name.

Definition materials : string := "0 !COLOUR Black CODE 0 VALUE #05131D".

(** [fs.existsSync] and the error of a failed read, for a disk. *)
Definition present (disk : string -> option string) (path : string) : bool :=
  match disk path with Some _ => true | None => false end.
Definition readError (path : string) : string :=
  "ENOENT: no such file or directory, open '" +:+ path +:+ "'".

(** The model places [brick.dat], which the library has under [parts/]. *)
Definition roundTrip (path : string) : option string :=
  if (path =? "/home/u/ldraw/LDConfig.ldr")%string then Some materials
  else if (path =? "/srv/temp/model.ldr")%string
  then Some (placement "brick.dat" +:+ Js.nl)
  else if (path =? "/home/u/ldraw/parts/brick.dat")%string
  then Some ("0 Brick 2 x 4" +:+ Js.nl)
  else None.

(** The model places [X.dat] and [Y.dat], which the library does not have. *)
Definition twoMissing (path : string) : option string :=
  if (path =? "/home/u/ldraw/LDConfig.ldr")%string then Some materials
  else if (path =? "/srv/temp/model.ldr")%string
  then Some (placement "X.dat" +:+ Js.nl +:+ placement "Y.dat")
  else None.

(** A library that keeps [48/stud.dat] directly under its root. *)
Definition flatLibrary (path : string) : option string :=
  if (path =? "/home/u/ldraw/48/stud.dat")%string then Some "0 Stud"
  else None.

(** A library file, not a root, whose first line is a ['0 FILE '] line. *)
Definition declaredFirst (path : string) : option string :=
  if (path =? "/home/u/ldraw/models/sub.ldr")%string
  then Some ("0 FILE inner.ldr" +:+ Js.nl +:+ "0 Inner part")
  else None.

(** No library at all. *)
Definition noLibrary (path : string) : option string := None.

(** A library whose [parts/empty.dat] is an empty file. *)
Definition emptyPart (path : string) : option string :=
  if (path =? "/home/u/ldraw/LDConfig.ldr")%string then Some materials
  else if (path =? "/home/u/ldraw/parts/empty.dat")%string then Some ""
  else None.

(** A model that places [sub.ldr] and declares it in place further down. *)
Definition inlineSubmodel (path : string) : option string :=
  if (path =? "/home/u/ldraw/LDConfig.ldr")%string then Some materials
  else if (path =? "/srv/temp/model.ldr")%string
  then Some (placement "sub.ldr" +:+ Js.nl +:+ "0 FILE sub.ldr" +:+ Js.nl
             +:+ "0 Inline part")
  else None.

(** A model without references. *)
Definition plainModel (path : string) : option string :=
  if (path =? "/home/u/ldraw/LDConfig.ldr")%string then Some materials
  else if (path =? "/srv/temp/model.ldr")%string
  then Some ("0 Untitled" +:+ Js.nl +:+ "0 STEP")
  else None.


End Scenario.

(** ** The resolver and walker, [parseObject] *)

Section Packer.

(** [process.env.HOME], the disk as [fs.readFileSync] sees it,
    [fs.existsSync], and the message of the error a failed read throws. *)
Variable HOME : string.
Variable disk : string -> option string.
Variable present : string -> bool.
Variable readError : string -> string.

Definition ldrawPath : string := HOME +:+ "/ldraw/".
Definition materialsFileName : string := "LDConfig.ldr".

(** [fs.readFileSync(path, { encoding: 'utf8' })]; [None] when it throws. *)
Definition readFileSync (path : string) (st : Store) : option string * Store :=
  (disk path, logEffect (Read path) st).

(** The body of the loop over [attempt] (lines 188 to 232): the content read
    when a [break] is reached, the value [prefix] is left with, the store. *)
Definition searchAttempt (attempt : nat) (originalFileName fileName : string)
    (st : Store) : option string * string * Store :=
  let prefix := "" in
  let prefix :=
    if Js.startsWith "48/" fileName then "p/"
    else if Js.startsWith "s/" fileName then "parts/"
    else prefix in
  match readFileSync (Path.join [ldrawPath; fileName]) st with
  | (Some content, st) => (Some content, prefix, st)
  | (None, st) =>
    let prefix := "parts/" in
    match readFileSync (Path.join [ldrawPath; prefix; fileName]) st with
    | (Some content, st) => (Some content, prefix, st)
    | (None, st) =>
      let prefix := "p/" in
      match readFileSync (Path.join [ldrawPath; prefix; fileName]) st with
      | (Some content, st) => (Some content, prefix, st)
      | (None, st) =>
        let prefix := "models/" in
        match readFileSync (Path.join [ldrawPath; prefix; fileName]) st with
        | (Some content, st) => (Some content, prefix, st)
        | (None, st) =>
            (None, prefix,
             if attempt =? 1 then pushNotFound originalFileName st else st)
        end
      end
    end
  end.

(** [for (let attempt = 0; attempt < 2; attempt++)], over the attempts still
    to run: the final [objectContent], [prefix], [fileName] and store. *)
Fixpoint searchLoop (attempts : list nat) (originalFileName : string)
    (objectContent : option string) (prefix fileName : string) (st : Store)
    : option string * string * string * Store :=
  match attempts with
  | [] => (objectContent, prefix, fileName, st)
  | attempt :: rest =>
      let fileName :=
        if attempt =? 1 then Js.toLowerCase fileName else fileName in
      match searchAttempt attempt originalFileName fileName st with
      | (Some content, prefix, st) => (Some content, prefix, fileName, st)
      | (None, prefix, st) =>
          searchLoop rest originalFileName objectContent prefix fileName st
      end
  end.

(** The name a placement line refers to, when it has at least fifteen
    tokens (lines 284 to 287). *)
Definition referenceOf (line : string) : option string :=
  let tokens := Js.splitWhiteSpace (Js.trim line) in
  if 15 <=? length tokens
  then Some (Js.slashes (Js.trim (Js.join " " (drop 14 tokens))))
  else None.

(** The scan of one line (lines 250 to 299); [recurse] is the recursive call
    of [parseObject] with [isRoot = false]. The result is the new value of
    [processedObjectContent] and the store. *)
Definition scanLine
    (recurse : string -> Store -> option (option string * Store))
    (i : nat) (raw : string) (processedObjectContent : string) (st : Store)
    : option (string * Store) :=
  let line := Js.dropWhile Js.isSpaceOrTab raw in
  if Js.startsWith "0 FILE " line then
    if i =? 0 then Some (processedObjectContent, st)
    else
      let subobjectFileName :=
        Js.slashes (Js.trim (Js.substringFrom 7 line)) in
      let st :=
        if Js.truthy subobjectFileName
        then (if mapped (pathMap st) subobjectFileName then st
              else setPath subobjectFileName subobjectFileName st)
        else st in
      Some (processedObjectContent +:+ line +:+ Js.nl, st)
  else
    let walked :=
      if Js.startsWith "1 " line then
        match referenceOf line with
        | Some subobjectFileName =>
            if Js.truthy subobjectFileName &&
               negb (mapped (pathMap st) subobjectFileName)
            then
              match recurse subobjectFileName st with
              | None => None
              | Some (subobjectPath, st) =>
                  Some (if Js.truthyOpt subobjectPath
                        then setPath subobjectFileName
                               (default "" subobjectPath) st
                        else st)
              end
            else Some st
        | None => Some st
        end
      else Some st in
    match walked with
    | None => None
    | Some st => Some (processedObjectContent +:+ line +:+ Js.nl, st)
    end.

(** [for (let i = 0, n = lines.length; i < n; i++)], from index [i] on. *)
Fixpoint scanLines
    (recurse : string -> Store -> option (option string * Store))
    (i : nat) (lines : list string) (processedObjectContent : string)
    (st : Store) : option (string * Store) :=
  match lines with
  | [] => Some (processedObjectContent, st)
  | line :: rest =>
      match scanLine recurse i line processedObjectContent st with
      | None => None
      | Some (processedObjectContent, st) =>
          scanLines recurse (S i) rest processedObjectContent st
      end
  end.

(** [path.join(prefix, fileName).trim().replace(/\\/g, '/')] *)
Definition objectPathOf (prefix fileName : string) : string :=
  Js.slashes (Js.trim (Path.join [prefix; fileName])).

(** The resolution of the content of [parseObject] (lines 171 to 234): the
    direct read of a root file, then the search of the library when nothing
    truthy has been read. The result is [objectContent], [prefix],
    [fileName] and the store. *)
Definition resolveContent (fileName : string) (isRoot : bool) (st : Store)
    : option string * string * string * Store :=
  let originalFileName := fileName in
  let prefix := "" in
  let '(objectContent, st) :=
    if isRoot then readFileSync fileName st else (None, st) in
  if negb (Js.truthyOpt objectContent)
  then searchLoop [0; 1] originalFileName objectContent prefix fileName st
  else (objectContent, prefix, fileName, st).

(** The rest of [parseObject] (lines 236 to 305): [Some (None, st)] is
    [return null], [Some (Some p, st)] is [return p]. *)
Definition rewriteObject
    (recurse : string -> Store -> option (option string * Store))
    (isRoot : bool) (objectContent : option string) (prefix fileName : string)
    (st : Store) : option (option string * Store) :=
  let objectPath := objectPathOf prefix fileName in
  match objectContent with
  | None => Some (None, st)
  | Some objectContent =>
      if negb (Js.truthy objectContent) then Some (None, st)
      else
        let objectContent :=
          if Js.hasCRLF objectContent then Js.replaceCRLF objectContent
          else objectContent in
        let processedObjectContent :=
          if isRoot then "" else "0 FILE " +:+ objectPath +:+ Js.nl in
        let lines := Js.split Js.LF objectContent in
        match scanLines recurse 0 lines processedObjectContent st with
        | None => None
        | Some (processedObjectContent, st) =>
            Some (Some objectPath,
                  pushObject objectPath processedObjectContent st)
        end
  end.

(** [parseObject(fileName, isRoot, objectsPaths, objectsContents, pathMap,
    listOfNotFound)] with room for [depth] nested calls on the stack. *)
Fixpoint parseObject (depth : nat) (fileName : string) (isRoot : bool)
    (st : Store) {struct depth} : option (option string * Store) :=
  match depth with
  | O => None
  | S depth' =>
      let '(objectContent, prefix, fileName, st) :=
        resolveContent fileName isRoot st in
      rewriteObject (fun name => parseObject depth' name false)
        isRoot objectContent prefix fileName st
  end.

(** ** The packer, [packLDrawModel] *)

(** What [packLDrawModel] ends with: the packed content it returns or the
    message of the error it throws. *)
Inductive outcome : Type :=
| Packed (packedContent : string)
| Thrown (message : string).

(** The loop of lines 147 to 152: [someNotFound] and the console lines. *)
Fixpoint checkNotFound (m : gmap string string) (names : list string)
    (someNotFound : bool) (console : list event) : bool * list event :=
  match names with
  | [] => (someNotFound, console)
  | name :: rest =>
      if negb (mapped m name)
      then checkNotFound m rest true (console ++ [ConsoleMissing name])
      else checkNotFound m rest someNotFound console
  end.

(** [objectsContents[i]] converted to a string by [+=]. *)
Definition contentAt (contents : list string) (i : nat) : string :=
  match contents !! i with
  | Some c => c
  | None => "undefined"
  end.

(** The loop of lines 160 to 162, with [i + 1 = n] on entry. *)
Fixpoint appendContents (n : nat) (contents : list string)
    (packedContent : string) : string :=
  match n with
  | O => packedContent
  | S i => appendContents i contents (packedContent +:+ contentAt contents i)
  end.

(** [packLDrawModel(fileName)]: the outcome and the effects performed;
    [None] when [depth] nested calls are not enough for the walk. *)
Definition packLDrawModel (depth : nat) (fileName : string)
    : option (outcome * list event) :=
  let materialsFilePath := Path.join [ldrawPath; materialsFileName] in
  if negb (present materialsFilePath)
  then Some (Thrown ("Materials file not found: " +:+ materialsFilePath), [])
  else
    match disk materialsFilePath with
    | None => Some (Thrown (readError materialsFilePath),
                    [Read materialsFilePath])
    | Some materialsContent =>
        let st := logEffect (Read materialsFilePath) emptyStore in
        match parseObject depth fileName true st with
        | None => None
        | Some (_, st) =>
            let '(someNotFound, console) :=
              checkNotFound (pathMap st) (listOfNotFound st) false [] in
            if someNotFound
            then Some (Thrown "Some files were not found during packing",
                       effects st ++ console)
            else
              let packedContent := materialsContent +:+ Js.nl in
              let packedContent :=
                appendContents (length (objectsPaths st))
                  (objectsContents st) packedContent in
              Some (Packed (packedContent +:+ Js.nl), effects st ++ console)
        end
    end.

(** ** The [/pack] handler, from the outcome of the pack on *)

Inductive response : Type :=
| Success (fileName packedFileName packedContent : string)
| Failure (status : nat) (error details : string).

(** [res.json({ success: true, ... })] after a pack that returned, and the
    [catch] branch after one that threw. *)
Definition respond (fileName : string) (o : outcome) : response :=
  match o with
  | Packed packedContent =>
      Success fileName (fileName +:+ "_Packed.mpd") packedContent
  | Thrown message => Failure 500 "Failed to pack model" message
  end.

(** ** The resolver as the specification describes it

    The four candidate locations of a name, the reads a pass over them
    performs (it stops at the first one that succeeds) and the position of
    that first success. These are compared with [searchLoop] below. *)

Definition candidatePrefixes : list string := [""; "parts/"; "p/"; "models/"].

Definition candidates (name : string) : list string :=
  map (fun prefix => Path.join [ldrawPath; prefix; name]) candidatePrefixes.

Fixpoint attempted (paths : list string) : list string :=
  match paths with
  | [] => []
  | p :: rest =>
      p :: (match disk p with Some _ => [] | None => attempted rest end)
  end.

Fixpoint firstHit (paths : list string) : option nat :=
  match paths with
  | [] => None
  | p :: rest =>
      match disk p with
      | Some _ => Some 0
      | None => S <$> firstHit rest
      end
  end.

Definition allFail (paths : list string) : bool :=
  forallb (fun p => match disk p with Some _ => false | None => true end)
    paths.

(** The prefix of the candidate at position [k]. *)
Definition prefixOfCandidate (k : nat) : string :=
  nth k candidatePrefixes "".

(** The prefix [searchAttempt] is left with after a hit at position [k]:
    the first candidate is read without a prefix, but lines 194 to 199 have
    then already chosen the prefix from the way the name begins. *)
Definition prefixAfterHit (k : nat) (fileName : string) : string :=
  match k with
  | O => if Js.startsWith "48/" fileName then "p/"
         else if Js.startsWith "s/" fileName then "parts/"
         else ""
  | _ => prefixOfCandidate k
  end.

(** The canonical path of a name found by the library search, given how the
    prefix depends on the position of the hit. *)
Definition canonicalPath (prefixAt : nat -> string -> string) (name : string)
    : option string :=
  match firstHit (candidates name) with
  | Some k => Some (objectPathOf (prefixAt k name) name)
  | None =>
      let lower := Js.toLowerCase name in
      match firstHit (candidates lower) with
      | Some k => Some (objectPathOf (prefixAt k lower) lower)
      | None => None
      end
  end.

(** The line as the scan classifies it: leading spaces and tabs skipped. *)
Definition stripped (raw : string) : string :=
  Js.dropWhile Js.isSpaceOrTab raw.

(** A placement line that names a reference: it begins with ["1 "] and has
    at least fifteen tokens, the last ones being the name. *)
Definition placementOf (raw : string) : option string :=
  if Js.startsWith "1 " (stripped raw) then referenceOf (stripped raw)
  else None.

(** The fields of a placement line after its marker. *)
Definition fieldsAfterMarker (raw : string) : list string :=
  tail (Js.splitWhiteSpace (Js.trim (stripped raw))).

(** The entries of the Not-found list that the final check reports. *)
Definition stillMissing (st : Store) : list string :=
  List.filter (fun name => negb (mapped (pathMap st) name)) (listOfNotFound st).

Definition concatAll (docs : list string) : string :=
  fold_right String.append "" docs.

(** [s.includes(sub)] *)
Definition includes (sub s : string) : bool :=
  match String.index 0 sub s with Some _ => true | None => false end.

(** One store grows into another: the sequences are only appended to, the
    two document sequences by the same number of entries, and what
    [pathMap] answers for a name it already maps does not change. *)
Record grows (st st' : Store) : Prop := mkGrows {
  grows_paths : exists ps, objectsPaths st' = objectsPaths st ++ ps /\
      exists cs, objectsContents st' = objectsContents st ++ cs /\
                 length ps = length cs;
  grows_notFound : exists nf, listOfNotFound st' = listOfNotFound st ++ nf;
  grows_effects : exists ev, effects st' = effects st ++ ev;
  grows_map : forall key, mapped (pathMap st) key = true ->
      pathMap st' !! key = pathMap st !! key
}.

(** The lines [rewriteObject] scans for a content (lines 242 to 247). *)
Definition linesOf (content : string) : list string :=
  Js.split Js.LF
    (if Js.hasCRLF content then Js.replaceCRLF content else content).

(** Every path the resolution map holds is a truthy string. *)
Definition valuesTruthy (st : Store) : Prop :=
  forall key path, pathMap st !! key = Some path -> Js.truthy path = true.

(** The store after the effects [evs] have been logged. *)
Definition logAll (evs : list event) (st : Store) : Store :=
  mkStore (objectsPaths st) (objectsContents st) (pathMap st)
          (listOfNotFound st) (effects st ++ evs).

(** ** The documents and the lists as the walk leaves them *)

(** The header line [parseObject] gives a document that is not the root
    (line 246). *)
Definition fileHeader (path : string) : string :=
  "0 FILE " +:+ path +:+ Js.nl.

(** What the scan writes for the lines from index [i] on: every line with
    its leading spaces and tabs skipped and a newline added, but for a
    ['0 FILE '] line at index 0. *)
Fixpoint rewriteLines (i : nat) (lines : list string) : string :=
  match lines with
  | [] => ""
  | raw :: rest =>
      (if Js.startsWith "0 FILE " (stripped raw) && (i =? 0) then ""
       else stripped raw +:+ Js.nl) +:+ rewriteLines (S i) rest
  end.

(** The sub-name a ['0 FILE '] line declares (line 268). *)
Definition declaredName (raw : string) : string :=
  Js.slashes (Js.trim (Js.substringFrom 7 (stripped raw))).

(** The same text with every line break written as CR LF. *)
Fixpoint toCRLF (s : string) : string :=
  match s with
  | EmptyString => EmptyString
  | String c s' =>
      if (c =? Js.LF)%char then String Js.CR (String Js.LF (toCRLF s'))
      else String c (toCRLF s')
  end.

(** The character [c] occurs in [s]. *)
Definition occursIn (c : ascii) (s : string) : Prop :=
  In c (list_ascii_of_string s).

(** None of the eight reads for [name] succeeds. *)
Definition nowhere (name : string) : Prop :=
  allFail (candidates name) = true /\
  allFail (candidates (Js.toLowerCase name)) = true.

(** One of the four locations of some name under [ldrawPath]. *)
Definition libraryLocation (path : string) : Prop :=
  exists prefix name,
    prefix ∈ candidatePrefixes /\ path = Path.join [ldrawPath; prefix; name].

(** What a walk may log: reads of library locations and pushes on the
    Not-found list. *)
Definition walkEffect (e : event) : Prop :=
  match e with
  | Read path => libraryLocation path
  | NotFoundPush _ => True
  | ConsoleMissing _ => False
  end.

(** The list [proj] of the store has only been appended to, with entries
    that satisfy [P]. *)
Definition appended {A : Type} (proj : Store -> list A) (P : A -> Prop)
    (st st' : Store) : Prop :=
  exists l, proj st' = proj st ++ l /\ Forall P l.

(** A document that begins with the header of its path. *)
Definition headed (path doc : string) : Prop :=
  exists body, doc = fileHeader path +:+ body.

(** The two document sequences have been appended to in step, with
    documents that begin with the header of their path. *)
Definition appendedHeaded (st st' : Store) : Prop :=
  exists paths docs,
    objectsPaths st' = objectsPaths st ++ paths /\
    objectsContents st' = objectsContents st ++ docs /\
    Forall2 headed paths docs.

(** Every entry of the resolution map of [st'] is an entry of [st], maps a
    name to itself, or maps it to its canonical path in the library. *)
Definition entriesSound (st st' : Store) : Prop :=
  forall name path,
    pathMap st' !! name = Some path ->
    pathMap st !! name = Some path \/ path = name \/
    canonicalPath prefixAfterHit name = Some path.

(** The content the search of the library finds for [name]: that of the
    first candidate that can be read, in the original-case pass or else in
    the lowercased one. *)
Definition foundContent (name : string) : option string :=
  match firstHit (candidates name) with
  | Some k => disk (nth k (candidates name) "")
  | None =>
      let lower := Js.toLowerCase name in
      match firstHit (candidates lower) with
      | Some k => disk (nth k (candidates lower) "")
      | None => None
      end
  end.

(** The content the walk of a root scans: the one read directly when it is
    not empty, the one the search of the library finds otherwise. *)
Definition rootContent (fileName : string) : option string :=
  if Js.truthyOpt (disk fileName) then disk fileName
  else foundContent fileName.

(** The names a pack of [root] walks: the references of the content of the
    root, and the references of the content found for a name walked. *)
Inductive walkedFrom (root : string) : string -> Prop :=
| walked_by_root (content raw name : string) :
    rootContent root = Some content ->
    raw ∈ linesOf content -> placementOf raw = Some name ->
    walkedFrom root name
| walked_by_reference (parent content raw name : string) :
    walkedFrom root parent ->
    foundContent parent = Some content ->
    raw ∈ linesOf content -> placementOf raw = Some name ->
    walkedFrom root name.

(** What the walk of names that satisfy [P] may log: reads of the eight
    candidates of such a name, and pushes on the Not-found list. *)
Definition searchEffect (P : string -> Prop) (e : event) : Prop :=
  match e with
  | Read path =>
      exists name,
        P name /\
        path ∈ candidates name ++ candidates (Js.toLowerCase name)
  | NotFoundPush _ => True
  | ConsoleMissing _ => False
  end.

(** ** The equations of the two loops *)

Lemma searchLoop_done original content prefix fileName st :
  searchLoop [] original content prefix fileName st
  = (content, prefix, fileName, st).
Proof. reflexivity. Qed.

Lemma searchLoop_step attempt rest original content prefix fileName st :
  searchLoop (attempt :: rest) original content prefix fileName st
  = let fileName :=
      if attempt =? 1 then Js.toLowerCase fileName else fileName in
    match searchAttempt attempt original fileName st with
    | (Some content, prefix, st) => (Some content, prefix, fileName, st)
    | (None, prefix, st) =>
        searchLoop rest original content prefix fileName st
    end.
Proof. reflexivity. Qed.

Lemma scanLines_done recurse i processed st :
  scanLines recurse i [] processed st = Some (processed, st).
Proof. reflexivity. Qed.

Lemma scanLines_step recurse i raw rest processed st :
  scanLines recurse i (raw :: rest) processed st
  = match scanLine recurse i raw processed st with
    | None => None
    | Some (processed, st) => scanLines recurse (S i) rest processed st
    end.
Proof. reflexivity. Qed.

Arguments searchLoop : simpl never.
Arguments scanLines : simpl never.
Arguments objectPathOf : simpl never.

(** ** Stores only grow *)

Lemma grows_refl st : grows st st.
Proof.
  split; [exists []; split; [by rewrite app_nil_r|exists []; by rewrite app_nil_r]
         |exists []; by rewrite app_nil_r..|done].
Qed.

Lemma mapped_lookup m m' key :
  m' !! key = m !! key -> mapped m' key = mapped m key.
Proof. unfold mapped. by intros ->. Qed.

Lemma grows_trans st1 st2 st3 : grows st1 st2 -> grows st2 st3 -> grows st1 st3.
Proof.
  intros [(ps & Hp & cs & Hc & Hl) [nf Hn] [ev He] Hm]
         [(ps' & Hp' & cs' & Hc' & Hl') [nf' Hn'] [ev' He'] Hm'].
  split.
  - exists (ps ++ ps'). rewrite Hp', Hp, <- app_assoc. split; [done|].
    exists (cs ++ cs'). rewrite Hc', Hc, <- app_assoc, !length_app. auto.
  - exists (nf ++ nf'). by rewrite Hn', Hn, <- app_assoc.
  - exists (ev ++ ev'). by rewrite He', He, <- app_assoc.
  - intros key Hk. rewrite Hm', Hm; [done..|].
    by rewrite (mapped_lookup _ _ _ (Hm key Hk)).
Qed.

Lemma grows_logEffect e st : grows st (logEffect e st).
Proof.
  split; simpl; [exists []; split; [by rewrite app_nil_r|exists []; by rewrite app_nil_r]
                |exists []; by rewrite app_nil_r|by eexists|done].
Qed.

Lemma grows_pushNotFound name st : grows st (pushNotFound name st).
Proof.
  split; simpl; [exists []; split; [by rewrite app_nil_r|exists []; by rewrite app_nil_r]
                |by eexists..|done].
Qed.

Lemma grows_pushObject path content st : grows st (pushObject path content st).
Proof.
  split; simpl; [exists [path]; split; [done|by exists [content]]
                |exists []; by rewrite app_nil_r..|done].
Qed.

(** A name that [pathMap] does not answer for may be assigned later on. *)
Lemma grows_setPath st st1 name path :
  grows st st1 -> mapped (pathMap st) name = false ->
  grows st (setPath name path st1).
Proof.
  intros [Hp Hn He Hm] Hfalse. split; simpl; [done..|].
  intros key Hk. rewrite lookup_insert_ne; [by apply Hm|].
  intros ->. congruence.
Qed.

Lemma searchAttempt_grows attempt original fileName st content prefix st' :
  searchAttempt attempt original fileName st = (content, prefix, st') ->
  grows st st'.
Proof.
  unfold searchAttempt, readFileSync. intros H.
  repeat match type of H with
         | context [match disk ?p with _ => _ end] => destruct (disk p)
         end;
  try destruct (attempt =? 1); simplify_eq;
  repeat first [ apply grows_logEffect | apply grows_pushNotFound
               | eapply grows_trans; [|first [apply grows_logEffect|apply grows_pushNotFound]] ].
Qed.

Lemma searchLoop_grows attempts original content0 prefix0 fileName0 st
    content prefix fileName st' :
  searchLoop attempts original content0 prefix0 fileName0 st
    = (content, prefix, fileName, st') ->
  grows st st'.
Proof.
  revert content0 prefix0 fileName0 st.
  induction attempts as [|attempt rest IH]; intros content0 prefix0 fileName0 st H;
    [rewrite searchLoop_done in H|rewrite searchLoop_step in H; cbv zeta in H].
  - simplify_eq. apply grows_refl.
  - destruct (searchAttempt _ _ _ _) as [[c p] st1] eqn:Hs.
    apply searchAttempt_grows in Hs. destruct c.
    + by simplify_eq.
    + eapply grows_trans; [exact Hs|]. by eapply IH.
Qed.

Section Scan.

Variable recurse : string -> Store -> option (option string * Store).
Hypothesis recurse_grows : forall name st r st',
  recurse name st = Some (r, st') -> grows st st'.

Lemma scanLine_grows i raw processed st processed' st' :
  scanLine recurse i raw processed st = Some (processed', st') ->
  grows st st'.
Proof.
  unfold scanLine. intros H.
  destruct (Js.startsWith "0 FILE " _).
  - destruct (i =? 0); simplify_eq; [apply grows_refl|].
    destruct (Js.truthy _); [|apply grows_refl].
    destruct (mapped _ _) eqn:Hm; [apply grows_refl|].
    apply grows_setPath; [apply grows_refl|done].
  - destruct (Js.startsWith "1 " _); [|simplify_eq; apply grows_refl].
    destruct (referenceOf _) as [name|]; [|simplify_eq; apply grows_refl].
    destruct (Js.truthy name); simpl in H; [|simplify_eq; apply grows_refl].
    destruct (mapped _ name) eqn:Hm; simpl in H; [simplify_eq; apply grows_refl|].
    destruct (recurse name st) as [[r st1]|] eqn:Hr; [|done].
    apply recurse_grows in Hr.
    destruct (Js.truthyOpt r); simplify_eq; [|done].
    by apply grows_setPath.
Qed.

Lemma scanLines_grows lines : forall i processed st processed' st',
  scanLines recurse i lines processed st = Some (processed', st') ->
  grows st st'.
Proof.
  induction lines as [|raw rest IH]; intros i processed st processed' st' H;
    [rewrite scanLines_done in H|rewrite scanLines_step in H].
  - simplify_eq. apply grows_refl.
  - destruct (scanLine _ _ _ _ _) as [[p1 st1]|] eqn:H1; [|done].
    eapply grows_trans; [by eapply scanLine_grows|by eapply IH].
Qed.

End Scan.

Lemma resolveContent_grows fileName isRoot st content prefix fileName' st' :
  resolveContent fileName isRoot st = (content, prefix, fileName', st') ->
  grows st st'.
Proof.
  unfold resolveContent, readFileSync. intros H.
  destruct isRoot.
  - destruct (negb _).
    + eapply grows_trans; [apply grows_logEffect|by eapply searchLoop_grows].
    + simplify_eq. apply grows_logEffect.
  - destruct (negb _); [by eapply searchLoop_grows|simplify_eq; apply grows_refl].
Qed.

Lemma rewriteObject_grows recurse isRoot content prefix fileName st r st' :
  (forall name st r st', recurse name st = Some (r, st') -> grows st st') ->
  rewriteObject recurse isRoot content prefix fileName st = Some (r, st') ->
  grows st st'.
Proof.
  unfold rewriteObject. intros Hrec H.
  destruct content as [content|]; [|simplify_eq; apply grows_refl].
  destruct (negb (Js.truthy content)); [simplify_eq; apply grows_refl|].
  destruct (scanLines _ _ _ _ _) as [[processed st2]|] eqn:H2; [|done].
  simplify_eq.
  eapply grows_trans; [by eapply scanLines_grows|apply grows_pushObject].
Qed.

Lemma parseObject_step depth fileName isRoot st :
  parseObject (S depth) fileName isRoot st
  = let '(objectContent, prefix, fileName, st) :=
      resolveContent fileName isRoot st in
    rewriteObject (fun name => parseObject depth name false)
      isRoot objectContent prefix fileName st.
Proof. reflexivity. Qed.

Lemma parseObject_grows depth : forall fileName isRoot st r st',
  parseObject depth fileName isRoot st = Some (r, st') -> grows st st'.
Proof.
  induction depth as [|depth IH]; [done|].
  intros fileName isRoot st r st' H. rewrite parseObject_step in H.
  destruct (resolveContent _ _ _) as [[[content prefix] fileName'] st1] eqn:H1.
  eapply grows_trans; [by eapply resolveContent_grows|].
  eapply rewriteObject_grows; [|exact H]. intros name s r' s'. apply IH.
Qed.

(** ** A deeper stack changes nothing *)

Lemma scanLine_deeper recurse recurse' i raw processed st x :
  (forall name st y, recurse name st = Some y -> recurse' name st = Some y) ->
  scanLine recurse i raw processed st = Some x ->
  scanLine recurse' i raw processed st = Some x.
Proof.
  unfold scanLine. intros Hrec H.
  destruct (Js.startsWith "0 FILE " _); [done|].
  destruct (Js.startsWith "1 " _); [|done].
  destruct (referenceOf _) as [name|]; [|done].
  destruct (Js.truthy name && negb _); [|done].
  destruct (recurse name st) as [y|] eqn:E; [|done].
  by rewrite (Hrec _ _ _ E).
Qed.

Lemma scanLines_deeper recurse recurse' lines : forall i processed st x,
  (forall name st y, recurse name st = Some y -> recurse' name st = Some y) ->
  scanLines recurse i lines processed st = Some x ->
  scanLines recurse' i lines processed st = Some x.
Proof.
  induction lines as [|raw rest IH]; intros i processed st x Hrec; [done|].
  rewrite !scanLines_step.
  destruct (scanLine recurse _ _ _ _) as [[p1 st1]|] eqn:E; [|done].
  rewrite (scanLine_deeper _ _ _ _ _ _ _ Hrec E). by apply IH.
Qed.

(** What a walk returns with [depth] nested calls it returns with more. *)
Lemma parseObject_deeper depth depth' : forall fileName isRoot st x,
  depth <= depth' ->
  parseObject depth fileName isRoot st = Some x ->
  parseObject depth' fileName isRoot st = Some x.
Proof.
  revert depth'. induction depth as [|depth IH]; [done|].
  intros [|depth'] fileName isRoot st x Hle; [lia|].
  rewrite !parseObject_step.
  destruct (resolveContent _ _ _) as [[[content prefix] fileName'] st1].
  unfold rewriteObject. destruct content as [content|]; [|done].
  destruct (negb _); [done|].
  destruct (scanLines (fun name => parseObject depth name false) _ _ _ _)
    as [[p st2]|] eqn:E; [|done].
  rewrite (scanLines_deeper _ (fun name => parseObject depth' name false)
             _ _ _ _ _ (fun name s y => IH depth' name false s y ltac:(lia)) E).
  done.
Qed.

(** ** The search of the library, pass by pass *)

Lemma logAll_nil st : logAll [] st = st.
Proof. destruct st. unfold logAll. simpl. by rewrite app_nil_r. Qed.

Lemma logAll_logAll evs evs' st :
  logAll evs' (logAll evs st) = logAll (evs ++ evs') st.
Proof. unfold logAll. simpl. by rewrite app_assoc. Qed.

Lemma logEffect_logAll e st : logEffect e st = logAll [e] st.
Proof. reflexivity. Qed.

Lemma pushNotFound_logAll name evs st :
  pushNotFound name (logAll evs st)
  = mkStore (objectsPaths st) (objectsContents st) (pathMap st)
            (listOfNotFound st ++ [name])
            (effects st ++ evs ++ [NotFoundPush name]).
Proof. unfold pushNotFound, logAll. simpl. by rewrite app_assoc. Qed.

Lemma join_first_candidate fileName :
  Path.join [ldrawPath; ""; fileName] = Path.join [ldrawPath; fileName].
Proof. reflexivity. Qed.

(** One pass reads the candidates in order up to the first that can be
    read; the prefix it is left with is [prefixAfterHit]. *)
Lemma searchAttempt_spec attempt original fileName st :
  searchAttempt attempt original fileName st
  = let st1 := logAll (map Read (attempted (candidates fileName))) st in
    match firstHit (candidates fileName) with
    | Some k =>
        (disk (nth k (candidates fileName) ""), prefixAfterHit k fileName, st1)
    | None =>
        (None, "models/",
         if attempt =? 1 then pushNotFound original st1 else st1)
    end.
Proof.
  unfold searchAttempt, readFileSync, candidates, candidatePrefixes.
  cbn [map attempted firstHit]. rewrite join_first_candidate.
  destruct (disk (Path.join [ldrawPath; fileName])) eqn:E1;
    [cbn; by rewrite E1|].
  destruct (disk (Path.join [ldrawPath; "parts/"; fileName])) eqn:E2;
    [cbn; rewrite E2, !logEffect_logAll, !logAll_logAll; done|].
  destruct (disk (Path.join [ldrawPath; "p/"; fileName])) eqn:E3;
    [cbn; rewrite E3, !logEffect_logAll, !logAll_logAll; done|].
  destruct (disk (Path.join [ldrawPath; "models/"; fileName])) eqn:E4;
    cbn; rewrite ?E4, !logEffect_logAll, !logAll_logAll; done.
Qed.

Lemma firstHit_Some paths k :
  firstHit paths = Some k ->
  is_Some (disk (nth k paths "")) /\ allFail paths = false /\
  attempted paths = take (S k) paths.
Proof.
  revert k. induction paths as [|p rest IH]; intros k H; [done|].
  cbn [firstHit attempted allFail forallb] in *.
  destruct (disk p) eqn:E.
  - simplify_eq. cbn. rewrite E. split; [by eexists|done].
  - destruct (firstHit rest) as [j|] eqn:Ej; [|done]. cbn in H. simplify_eq.
    destruct (IH j eq_refl) as (Hs & Hf & Ha). cbn [nth]. split; [done|].
    split; [exact Hf|]. by rewrite Ha.
Qed.

Lemma firstHit_None paths :
  firstHit paths = None -> allFail paths = true /\ attempted paths = paths.
Proof.
  induction paths as [|p rest IH]; intros H; [done|].
  cbn [firstHit attempted allFail forallb] in *.
  destruct (disk p) eqn:E; [done|].
  destruct (firstHit rest); [done|]. destruct (IH eq_refl) as [Hf Ha].
  fold (allFail rest). by rewrite Hf, Ha.
Qed.

Lemma all_missing_firstHit paths :
  (forall path, path ∈ paths -> disk path = None) -> firstHit paths = None.
Proof.
  induction paths as [|p rest IH]; intros H; [done|]. cbn.
  rewrite (H p) by left. rewrite IH; [done|]. intros q Hq. apply H. by right.
Qed.

(** The two passes of the search; [content] is what [objectContent] holds
    on entry. *)
Lemma searchLoop_spec name content st :
  searchLoop [0; 1] name content "" name st
  = let lower := Js.toLowerCase name in
    let st1 := logAll (map Read (attempted (candidates name))) st in
    match firstHit (candidates name) with
    | Some k =>
        (disk (nth k (candidates name) ""), prefixAfterHit k name, name, st1)
    | None =>
        let st2 := logAll (map Read (attempted (candidates lower))) st1 in
        match firstHit (candidates lower) with
        | Some k =>
            (disk (nth k (candidates lower) ""), prefixAfterHit k lower,
             lower, st2)
        | None => (content, "models/", lower, pushNotFound name st2)
        end
    end.
Proof.
  rewrite searchLoop_step. cbv zeta. change (0 =? 1) with false. cbv iota.
  rewrite searchAttempt_spec. cbv zeta.
  destruct (firstHit (candidates name)) as [k|] eqn:E1.
  - destruct (firstHit_Some _ _ E1) as ([c Hc] & _). by rewrite Hc.
  - change (0 =? 1) with false. cbv iota.
    rewrite searchLoop_step. cbv zeta. change (1 =? 1) with true. cbv iota.
    rewrite searchAttempt_spec. cbv zeta.
    destruct (firstHit (candidates (Js.toLowerCase name))) as [k|] eqn:E2.
    + destruct (firstHit_Some _ _ E2) as ([c Hc] & _). by rewrite Hc.
    + change (1 =? 1) with true. cbv iota. by rewrite searchLoop_done.
Qed.

Lemma resolveContent_nonroot name st :
  resolveContent name false st = searchLoop [0; 1] name None "" name st.
Proof. reflexivity. Qed.

Lemma marker_exclusive line :
  Js.startsWith "1 " line = true -> Js.startsWith "0 FILE " line = false.
Proof.
  unfold Js.startsWith. destruct line as [|c line]; [done|].
  cbn [String.prefix].
  destruct (ascii_dec "1" c) as [<-|]; [|done].
  by destruct (ascii_dec "0" "1").
Qed.

(** ** The resolution map holds truthy paths only *)

Lemma valuesTruthy_setPath name path st :
  valuesTruthy st -> Js.truthy path = true -> valuesTruthy (setPath name path st).
Proof.
  intros Hst Hpath key v. cbn [setPath pathMap].
  destruct (decide (name = key)) as [->|Hne].
  - rewrite lookup_insert_eq. by intros [= <-].
  - rewrite lookup_insert_ne by done. apply Hst.
Qed.

Lemma resolveContent_pathMap fileName isRoot st :
  pathMap (snd (resolveContent fileName isRoot st)) = pathMap st.
Proof.
  unfold resolveContent, readFileSync.
  destruct isRoot; (destruct (negb _); [|done]); rewrite searchLoop_spec;
    cbv zeta;
    repeat match goal with
           | |- context [match firstHit ?l with _ => _ end] =>
               destruct (firstHit l)
           end; done.
Qed.

Lemma scanLine_valuesTruthy recurse i raw processed st processed' st' :
  (forall name st r st',
     recurse name st = Some (r, st') -> valuesTruthy st -> valuesTruthy st') ->
  scanLine recurse i raw processed st = Some (processed', st') ->
  valuesTruthy st -> valuesTruthy st'.
Proof.
  unfold scanLine. intros Hrec H Hst.
  destruct (Js.startsWith "0 FILE " _).
  - destruct (i =? 0); simplify_eq; [done|].
    destruct (Js.truthy _) eqn:Ht; [|done].
    destruct (mapped _ _); [done|]. by apply valuesTruthy_setPath.
  - destruct (Js.startsWith "1 " _); [|by simplify_eq].
    destruct (referenceOf _) as [name|]; [|by simplify_eq].
    destruct (Js.truthy name && negb _); [|by simplify_eq].
    destruct (recurse name st) as [[r st1]|] eqn:Hr; [|done].
    apply Hrec in Hr; [|done].
    destruct r as [path|]; cbn [Js.truthyOpt] in H; [|by simplify_eq].
    destruct (Js.truthy path) eqn:Hp; simplify_eq; [|done].
    by apply valuesTruthy_setPath.
Qed.

Lemma scanLines_valuesTruthy recurse lines : forall i processed st processed' st',
  (forall name st r st',
     recurse name st = Some (r, st') -> valuesTruthy st -> valuesTruthy st') ->
  scanLines recurse i lines processed st = Some (processed', st') ->
  valuesTruthy st -> valuesTruthy st'.
Proof.
  induction lines as [|raw rest IH]; intros i processed st processed' st' Hrec H Hst;
    [rewrite scanLines_done in H|rewrite scanLines_step in H]; [by simplify_eq|].
  destruct (scanLine _ _ _ _ _) as [[p1 st1]|] eqn:H1; [|done].
  eapply IH; [done..|]. by eapply scanLine_valuesTruthy.
Qed.

Lemma parseObject_valuesTruthy depth : forall fileName isRoot st r st',
  parseObject depth fileName isRoot st = Some (r, st') ->
  valuesTruthy st -> valuesTruthy st'.
Proof.
  induction depth as [|depth IH]; [done|].
  intros fileName isRoot st r st' H Hst. rewrite parseObject_step in H.
  pose proof (resolveContent_pathMap fileName isRoot st) as Hmap.
  destruct (resolveContent _ _ _) as [[[content prefix] fileName'] st1].
  cbn [snd] in Hmap.
  assert (valuesTruthy st1) as Hst1 by (unfold valuesTruthy; by rewrite Hmap).
  unfold rewriteObject in H. destruct content as [content|]; [|by simplify_eq].
  destruct (negb _); [by simplify_eq|].
  destruct (scanLines _ _ _ _ _) as [[processed st2]|] eqn:H2; [|done].
  simplify_eq. unfold valuesTruthy. cbn [pushObject pathMap].
  eapply scanLines_valuesTruthy; [|exact H2|exact Hst1].
  intros name s r' s'. apply IH.
Qed.

(** For a name that is not a property of [Object.prototype], [pathMap]
    answers with a truthy value exactly when it has an entry. *)
Lemma mapped_own_entry st name :
  valuesTruthy st -> inherited name = false ->
  mapped (pathMap st) name = false <-> pathMap st !! name = None.
Proof.
  intros Hst Hname. unfold mapped.
  destruct (pathMap st !! name) as [path|] eqn:E; [|done].
  rewrite (Hst _ _ E). split; done.
Qed.

(** ** The path resolver *)

Lemma candidates_eq name :
  candidates name
  = [ Path.join [ldrawPath; name]; Path.join [ldrawPath; "parts/"; name];
      Path.join [ldrawPath; "p/"; name]; Path.join [ldrawPath; "models/"; name] ].
Proof. reflexivity. Qed.

(** C2. For a reference that is not the root, the resolver reads the four
    candidates [ldrawPath/name], [ldrawPath/parts/name], [ldrawPath/p/name],
    [ldrawPath/models/name] in that order, stopping at the first that can be
    read, and goes through the four candidates of the lowercased name in the
    same way exactly when all four reads of the first pass failed; it
    performs no other read. *)
Theorem resolver_search_order (name : string) (st : Store) :
  let lower := Js.toLowerCase name in
  effects (snd (resolveContent name false st))
  = effects st ++ map Read (attempted (candidates name)) ++
    (if allFail (candidates name)
     then map Read (attempted (candidates lower)) ++
          (if allFail (candidates lower) then [NotFoundPush name] else [])
     else []).
Proof.
  cbv zeta. rewrite resolveContent_nonroot, searchLoop_spec. cbv zeta.
  destruct (firstHit (candidates name)) as [k|] eqn:E1.
  - destruct (firstHit_Some _ _ E1) as (_ & -> & _). cbn [snd effects logAll pushNotFound].
    by rewrite app_nil_r.
  - destruct (firstHit_None _ E1) as [-> _].
    destruct (firstHit (candidates (Js.toLowerCase name))) as [k|] eqn:E2.
    + destruct (firstHit_Some _ _ E2) as (_ & -> & _). cbn [snd effects logAll pushNotFound].
      by rewrite app_nil_r, app_assoc.
    + destruct (firstHit_None _ E2) as [-> _]. cbn [snd effects logAll pushNotFound].
      by rewrite <- !app_assoc.
Qed.

(** When no direct read gives a content, the resolution is the search of
    the library. *)
Lemma resolveContent_search name isRoot st :
  (isRoot = true -> Js.truthyOpt (disk name) = false) ->
  resolveContent name isRoot st
  = searchLoop [0; 1] name (if isRoot then disk name else None) "" name
      (if isRoot then logEffect (Read name) st else st).
Proof.
  intros Hroot. unfold resolveContent, readFileSync. destruct isRoot; [|done].
  by rewrite (Hroot eq_refl).
Qed.

(** C3, as the code has it. When the search of the library succeeds (for a
    reference that is not the root, or for a root that could not be read
    directly) and the walk returns a canonical path, the prefix in that
    path is the one of the candidate that was read, except for a hit on the
    first, unprefixed candidate: there the prefix is ["p/"] for a name
    beginning with ["48/"], ["parts/"] for a name beginning with ["s/"],
    and empty otherwise. *)
Theorem canonical_prefix_after_hit (depth : nat) (name : string)
    (isRoot : bool) (st : Store) (p : string) (st' : Store) :
  (isRoot = true -> Js.truthyOpt (disk name) = false) ->
  parseObject depth name isRoot st = Some (Some p, st') ->
  canonicalPath prefixAfterHit name = Some p.
Proof.
  intros Hroot. destruct depth as [|depth]; [done|].
  rewrite parseObject_step, (resolveContent_search _ _ _ Hroot), searchLoop_spec.
  cbv zeta. unfold canonicalPath, rewriteObject.
  destruct (firstHit (candidates name)) as [k|].
  - destruct (disk (nth k _ _)) as [c|]; [|done].
    destruct (negb (Js.truthy c)); [done|].
    destruct (scanLines _ _ _ _ _) as [[? ?]|]; [|done]. by intros [= <- _].
  - destruct (firstHit (candidates (Js.toLowerCase name))) as [k|].
    + destruct (disk (nth k _ _)) as [c|]; [|done].
      destruct (negb (Js.truthy c)); [done|].
      destruct (scanLines _ _ _ _ _) as [[? ?]|]; [|done]. by intros [= <- _].
    + destruct isRoot; [|done].
      destruct (disk name) as [c|]; [|done].
      cbn [Js.truthyOpt] in Hroot. by rewrite (Hroot eq_refl).
Qed.

(** A walk whose reads all fail only pushes the name on the Not-found list. *)
Lemma parseObject_all_missing (depth : nat) (name : string)
    (isRoot : bool) (st : Store) :
  (forall path,
     path ∈ candidates name ++ candidates (Js.toLowerCase name) ->
     disk path = None) ->
  (isRoot = true -> Js.truthyOpt (disk name) = false) ->
  parseObject (S depth) name isRoot st
  = Some (None,
          mkStore (objectsPaths st) (objectsContents st) (pathMap st)
            (listOfNotFound st ++ [name])
            (effects st ++ (if isRoot then [Read name] else []) ++
             map Read (candidates name ++ candidates (Js.toLowerCase name)) ++
             [NotFoundPush name])).
Proof.
  intros Hmiss Hroot.
  assert (firstHit (candidates name) = None) as E1.
  { apply all_missing_firstHit. intros q Hq. apply Hmiss, elem_of_app. by left. }
  assert (firstHit (candidates (Js.toLowerCase name)) = None) as E2.
  { apply all_missing_firstHit. intros q Hq. apply Hmiss, elem_of_app. by right. }
  destruct (firstHit_None _ E1) as [_ A1], (firstHit_None _ E2) as [_ A2].
  rewrite parseObject_step. unfold resolveContent, readFileSync.
  destruct isRoot.
  - rewrite (Hroot eq_refl). cbn [negb]. rewrite searchLoop_spec. cbv zeta.
    rewrite E1, E2, A1, A2, logEffect_logAll, !logAll_logAll,
      pushNotFound_logAll, map_app.
    unfold rewriteObject. rewrite <- !app_assoc.
    destruct (disk name) as [c|]; [|done].
    cbn in Hroot. by rewrite (Hroot eq_refl).
  - cbn [Js.truthyOpt negb]. rewrite searchLoop_spec. cbv zeta.
    rewrite E1, E2, A1, A2, !logAll_logAll, pushNotFound_logAll, map_app.
    done.
Qed.

(** C9. A walk whose reads all fail, in both passes (and, for a root, whose
    direct read fails or yields nothing), returns [null]; the two document
    sequences and the resolution map are as before, and the original name
    has been pushed once on the Not-found list, after the last read of the
    lowercased pass. *)
Theorem unresolved_walk_returns_null (depth : nat) (name : string)
    (isRoot : bool) (st : Store) :
  (forall path,
     path ∈ candidates name ++ candidates (Js.toLowerCase name) ->
     disk path = None) ->
  (isRoot = true -> Js.truthyOpt (disk name) = false) ->
  parseObject (S depth) name isRoot st
  = Some (None,
          mkStore (objectsPaths st) (objectsContents st) (pathMap st)
            (listOfNotFound st ++ [name])
            (effects st ++ (if isRoot then [Read name] else []) ++
             map Read (candidates name ++ candidates (Js.toLowerCase name)) ++
             [NotFoundPush name])).
Proof. apply parseObject_all_missing. Qed.

(** ** The line scan *)

Lemma scanLine_other recurse i raw processed st :
  Js.startsWith "0 FILE " (stripped raw) = false ->
  placementOf raw = None ->
  scanLine recurse i raw processed st
  = Some (processed +:+ stripped raw +:+ Js.nl, st).
Proof.
  unfold scanLine, placementOf. fold (stripped raw). intros -> H.
  destruct (Js.startsWith "1 " _); [|done]. by rewrite H.
Qed.

Lemma scanLine_placement recurse i raw name processed st :
  placementOf raw = Some name ->
  scanLine recurse i raw processed st
  = if Js.truthy name && negb (mapped (pathMap st) name)
    then match recurse name st with
         | None => None
         | Some (path, st1) =>
             Some (processed +:+ stripped raw +:+ Js.nl,
                   if Js.truthyOpt path
                   then setPath name (default "" path) st1 else st1)
         end
    else Some (processed +:+ stripped raw +:+ Js.nl, st).
Proof.
  unfold scanLine, placementOf. fold (stripped raw). intros H.
  destruct (Js.startsWith "1 " _) eqn:E; [|done].
  rewrite (marker_exclusive _ E), H.
  destruct (Js.truthy name && negb _); [|done].
  by destruct (recurse name st) as [[? ?]|].
Qed.

(** C7. A placement line with fewer than fourteen fields after its marker
    starts no resolution and raises nothing, whatever the walker would do:
    the store is as before and the line, with its leading spaces and tabs
    skipped as for every line, goes to the rewritten output. *)
Theorem short_placement_line_passes
    (recurse : string -> Store -> option (option string * Store))
    (i : nat) (raw processed : string) (st : Store) :
  Js.startsWith "1 " (stripped raw) = true ->
  length (fieldsAfterMarker raw) < 14 ->
  scanLine recurse i raw processed st
  = Some (processed +:+ stripped raw +:+ Js.nl, st).
Proof.
  intros Hmarker Hshort. apply scanLine_other.
  - by apply marker_exclusive.
  - unfold placementOf, referenceOf. rewrite Hmarker.
    unfold fieldsAfterMarker in Hshort.
    destruct (Js.splitWhiteSpace _) as [|t ts]; [done|].
    cbn [tail length] in *.
    destruct (15 <=? S (length ts)) eqn:E; [|done].
    apply Nat.leb_le in E. lia.
Qed.

(** C6, as the code has it. A ['0 FILE '] line is dropped when it is the
    first line of the content scanned, for the root and for every other
    file alike: the scan of a content that begins with such a line is the
    scan of its other lines from index 1. At any other index the line goes
    to the rewritten output, nothing is read, and its sub-name is mapped to
    itself when it is not empty and [pathMap] has no truthy answer for it. *)
Theorem self_declaration_line
    (recurse : string -> Store -> option (option string * Store))
    (raw : string) (st : Store) :
  Js.startsWith "0 FILE " (stripped raw) = true ->
  let sub := Js.slashes (Js.trim (Js.substringFrom 7 (stripped raw))) in
  (forall isRoot content prefix fileName rest,
     Js.truthy content = true ->
     Js.split Js.LF
       (if Js.hasCRLF content then Js.replaceCRLF content else content)
       = raw :: rest ->
     rewriteObject recurse isRoot (Some content) prefix fileName st
     = match scanLines recurse 1 rest
               (if isRoot then ""
                else "0 FILE " +:+ objectPathOf prefix fileName +:+ Js.nl) st
       with
       | None => None
       | Some (processed, st') =>
           Some (Some (objectPathOf prefix fileName),
                 pushObject (objectPathOf prefix fileName) processed st')
       end) /\
  (forall i processed,
     i <> 0 ->
     scanLine recurse i raw processed st
     = Some (processed +:+ stripped raw +:+ Js.nl,
             if Js.truthy sub && negb (mapped (pathMap st) sub)
             then setPath sub sub st else st)).
Proof.
  intros Hmarker sub. split.
  - intros isRoot content prefix fileName rest Htruthy Hlines.
    unfold rewriteObject. rewrite Htruthy. cbn [negb]. rewrite Hlines.
    rewrite scanLines_step. unfold scanLine at 1. fold (stripped raw).
    by rewrite Hmarker.
  - intros i processed Hi. unfold scanLine. fold (stripped raw).
    rewrite Hmarker. destruct (i =? 0) eqn:E; [by apply Nat.eqb_eq in E|].
    fold sub. destruct (Js.truthy sub); [|done].
    by destruct (mapped _ _).
Qed.

(** C10. A resolution that failed leaves no entry in the resolution map, so
    each placement line that names the same unresolvable reference runs
    the two passes over the four candidates again and pushes the name on
    the Not-found list again: after [n] such lines the list has gained [n]
    copies of the name. *)
Theorem unresolved_reference_repeats (depth : nat) (name : string)
    (lines : list string) :
  forall (i : nat) (processed : string) (st : Store),
  Forall (fun raw => placementOf raw = Some name) lines ->
  Js.truthy name = true ->
  mapped (pathMap st) name = false ->
  (forall path,
     path ∈ candidates name ++ candidates (Js.toLowerCase name) ->
     disk path = None) ->
  exists processed' st',
    scanLines (fun n => parseObject (S depth) n false) i lines processed st
      = Some (processed', st') /\
    pathMap st' = pathMap st /\
    listOfNotFound st' = listOfNotFound st ++ replicate (length lines) name /\
    effects st'
    = effects st ++
      concat (replicate (length lines)
                (map Read (candidates name ++
                           candidates (Js.toLowerCase name)) ++
                 [NotFoundPush name])).
Proof.
  induction lines as [|raw rest IH]; intros i processed st Hall Hname Hmap Hmiss.
  - exists processed, st. rewrite scanLines_done. cbn.
    by rewrite !app_nil_r.
  - apply Forall_cons in Hall as [Hraw Hrest].
    rewrite scanLines_step, (scanLine_placement _ _ _ _ _ _ Hraw).
    rewrite Hname, Hmap. cbn [negb andb].
    rewrite (parseObject_all_missing depth name false st Hmiss)
      by done.
    cbn [Js.truthyOpt app].
    set (st1 := mkStore _ _ _ _ _).
    destruct (IH (S i) (processed +:+ stripped raw +:+ Js.nl) st1 Hrest Hname)
      as (processed' & st' & Hscan & Hm & Hn & He); [done..|].
    exists processed', st'. split; [done|]. split; [by rewrite Hm|].
    rewrite Hn, He. subst st1. cbn [listOfNotFound effects length replicate concat].
    by rewrite <- !app_assoc.
Qed.


(** ** The packer *)

Lemma append_cons (x : ascii) (a b : string) :
  String x a +:+ b = String x (a +:+ b).
Proof. reflexivity. Qed.

Lemma append_assoc (a b c : string) : (a +:+ b) +:+ c = a +:+ b +:+ c.
Proof. induction a as [|x a IH]; [done|]. by rewrite !append_cons, IH. Qed.

Lemma append_empty (a : string) : a +:+ "" = a.
Proof. induction a as [|x a IH]; [done|]. by rewrite append_cons, IH. Qed.

Lemma concatAll_app (l1 l2 : list string) :
  concatAll (l1 ++ l2) = concatAll l1 +:+ concatAll l2.
Proof.
  unfold concatAll. induction l1 as [|x l1 IH]; [done|].
  cbn [app fold_right]. by rewrite IH, append_assoc.
Qed.

(** The loop of lines 160 to 162 appends the first [n] contents, last
    first. *)
Lemma appendContents_take n : forall contents packed,
  n <= length contents ->
  appendContents n contents packed
  = packed +:+ concatAll (rev (take n contents)).
Proof.
  induction n as [|n IH]; intros contents packed Hn.
  - cbn [appendContents]. rewrite take_0. cbn [rev concatAll fold_right].
    by rewrite append_empty.
  - cbn [appendContents]. rewrite IH by lia. unfold contentAt.
    destruct (contents !! n) as [x|] eqn:E.
    + rewrite (take_S_r _ _ _ E), rev_unit. unfold concatAll.
      cbn [fold_right]. by rewrite append_assoc.
    + apply lookup_ge_None in E. lia.
Qed.

Lemma appendContents_all contents packed :
  appendContents (length contents) contents packed
  = packed +:+ concatAll (rev contents).
Proof. rewrite appendContents_take by done. by rewrite firstn_all. Qed.

(** The loop of lines 147 to 152 reports the entries of the Not-found list
    that [pathMap] has no truthy answer for. *)
Lemma checkNotFound_spec m : forall names someNotFound console,
  checkNotFound m names someNotFound console
  = (someNotFound ||
       negb (forallb (mapped m) names),
     console ++
       map ConsoleMissing
         (List.filter (fun name => negb (mapped m name)) names)).
Proof.
  induction names as [|name rest IH]; intros b console.
  - cbn. by rewrite orb_false_r, app_nil_r.
  - cbn [checkNotFound forallb List.filter]. destruct (mapped m name); cbn [negb andb].
    + by rewrite IH.
    + rewrite IH. cbn [map]. by rewrite orb_true_r, <- app_assoc.
Qed.

Lemma stillMissing_nil st :
  stillMissing st = [] <-> forallb (mapped (pathMap st)) (listOfNotFound st) = true.
Proof.
  unfold stillMissing. induction (listOfNotFound st) as [|name rest IH]; [done|].
  cbn. destruct (mapped _ name); cbn; [done|]. split; done.
Qed.

Lemma stillMissing_elem st name :
  name ∈ stillMissing st
  <-> name ∈ listOfNotFound st /\ mapped (pathMap st) name = false.
Proof.
  unfold stillMissing. rewrite !list_elem_of_In, filter_In.
  by rewrite negb_true_iff.
Qed.

(** The outcome of a pack whose materials were read and whose walk ended. *)
Lemma packLDrawModel_walked depth fileName materialsContent r st :
  let materialsFilePath := Path.join [ldrawPath; materialsFileName] in
  present materialsFilePath = true ->
  disk materialsFilePath = Some materialsContent ->
  parseObject depth fileName true (logEffect (Read materialsFilePath) emptyStore)
    = Some (r, st) ->
  packLDrawModel depth fileName
  = Some (match stillMissing st with
          | [] => Packed
                    (appendContents (length (objectsPaths st))
                       (objectsContents st) (materialsContent +:+ Js.nl)
                     +:+ Js.nl)
          | _ :: _ => Thrown "Some files were not found during packing"
          end,
          effects st ++ map ConsoleMissing (stillMissing st)).
Proof.
  intros mat Hpresent Hdisk Hwalk. unfold packLDrawModel. fold mat.
  rewrite Hpresent, Hdisk. cbn [negb]. rewrite Hwalk, checkNotFound_spec.
  cbn [orb app]. fold (stillMissing st).
  destruct (stillMissing st) as [|n l] eqn:E.
  - apply stillMissing_nil in E. by rewrite E.
  - destruct (forallb _ _) eqn:F; [|done].
    apply stillMissing_nil in F. congruence.
Qed.

(** A walk that returns a path has read a content, scanned its lines and
    pushed the document last. *)
Lemma parseObject_returns_path depth fileName isRoot st p st' :
  parseObject depth fileName isRoot st = Some (Some p, st') ->
  exists depth' content prefix fileName' st1 doc st2,
    depth = S depth' /\
    resolveContent fileName isRoot st = (Some content, prefix, fileName', st1) /\
    p = objectPathOf prefix fileName' /\
    scanLines (fun name => parseObject depth' name false) 0 (linesOf content)
      (if isRoot then "" else "0 FILE " +:+ p +:+ Js.nl) st1
      = Some (doc, st2) /\
    st' = pushObject p doc st2.
Proof.
  destruct depth as [|depth]; [done|]. rewrite parseObject_step.
  destruct (resolveContent _ _ _) as [[[content prefix] fileName'] st1] eqn:H1.
  unfold rewriteObject. destruct content as [content|]; [|done].
  destruct (negb _); [done|]. fold (linesOf content).
  destruct (scanLines _ _ _ _ _) as [[doc st2]|] eqn:H2; [|done].
  intros [= <- <-]. by exists depth, content, prefix, fileName', st1, doc, st2.
Qed.

(** Every document is pushed after those found while it was scanned. *)
Lemma parseObject_pushes_last depth fileName isRoot st p st' :
  parseObject depth fileName isRoot st = Some (Some p, st') ->
  exists paths docs doc,
    objectsPaths st' = objectsPaths st ++ paths ++ [p] /\
    objectsContents st' = objectsContents st ++ docs ++ [doc] /\
    length paths = length docs /\
    exists depth' content prefix fileName' st1 st2,
      depth = S depth' /\
      resolveContent fileName isRoot st
        = (Some content, prefix, fileName', st1) /\
      scanLines (fun name => parseObject depth' name false) 0 (linesOf content)
        (if isRoot then "" else "0 FILE " +:+ p +:+ Js.nl) st1
        = Some (doc, st2).
Proof.
  intros Hwalk.
  destruct (parseObject_returns_path _ _ _ _ _ _ Hwalk)
    as (depth' & content & prefix & fileName' & st1 & doc & st2
        & -> & H1 & -> & H2 & ->).
  pose proof (resolveContent_grows _ _ _ _ _ _ _ H1)
    as [(ps & Hp & cs & Hc & Hl) _ _ _].
  pose proof (scanLines_grows _ (fun n s r s' => parseObject_grows depth' n false s r s')
                _ _ _ _ _ _ H2) as [(ps' & Hp' & cs' & Hc' & Hl') _ _ _].
  exists (ps ++ ps'), (cs ++ cs'), doc.
  cbn [pushObject objectsPaths objectsContents].
  rewrite Hp', Hp, Hc', Hc, <- !app_assoc, !length_app.
  repeat (split; [auto|]).
  by exists depth', content, prefix, fileName', st1, st2.
Qed.

Lemma packLDrawModel_inv depth fileName o log :
  let materialsFilePath := Path.join [ldrawPath; materialsFileName] in
  packLDrawModel depth fileName = Some (o, log) ->
  (exists message, o = Thrown message /\
     (present materialsFilePath = false \/ disk materialsFilePath = None)) \/
  exists materialsContent r st,
    present materialsFilePath = true /\
    disk materialsFilePath = Some materialsContent /\
    parseObject depth fileName true
      (logEffect (Read materialsFilePath) emptyStore) = Some (r, st).
Proof.
  intros mat. unfold packLDrawModel. fold mat.
  destruct (present mat) eqn:Hp; cbn [negb].
  - destruct (disk mat) as [m|] eqn:Hd.
    + destruct (parseObject _ _ _ _) as [[r st]|] eqn:Hw; [|done].
      intros _. right. by exists m, r, st.
    + intros [= <- <-]. left. eexists. eauto.
  - intros [= <- <-]. left. eexists. eauto.
Qed.

(** C1, as the code has it. The artifact of a successful pack is the
    materials content, a newline, the rewritten contents of the documents
    discovered, in the reverse of the order in which the walk appended
    them, and a closing newline. A document is appended when the scan of its
    lines, recursion included, is over: when the walk of the root returns a
    path, the root document, which is what the scan of the root content
    produced, is the last one appended and so the first one after the
    materials content and its newline. *)
Theorem packed_artifact_layout (depth : nat) (fileName packedContent : string)
    (log : list event) :
  let materialsFilePath := Path.join [ldrawPath; materialsFileName] in
  packLDrawModel depth fileName = Some (Packed packedContent, log) ->
  exists materialsContent r st,
    disk materialsFilePath = Some materialsContent /\
    parseObject depth fileName true
      (logEffect (Read materialsFilePath) emptyStore) = Some (r, st) /\
    length (objectsPaths st) = length (objectsContents st) /\
    packedContent
    = materialsContent +:+ Js.nl +:+
      concatAll (rev (objectsContents st)) +:+ Js.nl /\
    forall rootPath, r = Some rootPath ->
      exists paths docs rootDoc,
        objectsPaths st = paths ++ [rootPath] /\
        objectsContents st = docs ++ [rootDoc] /\
        length paths = length docs /\
        (exists depth' content prefix fileName' st1 st2,
           depth = S depth' /\
           resolveContent fileName true
             (logEffect (Read materialsFilePath) emptyStore)
             = (Some content, prefix, fileName', st1) /\
           scanLines (fun name => parseObject depth' name false) 0
             (linesOf content) "" st1 = Some (rootDoc, st2)) /\
        packedContent
        = materialsContent +:+ Js.nl +:+ rootDoc +:+
          concatAll (rev docs) +:+ Js.nl.
Proof.
  intros mat Hpack.
  destruct (packLDrawModel_inv _ _ _ _ Hpack)
    as [(message & [=] & _)|(m & r & st & Hp & Hd & Hw)].
  fold mat in Hp, Hd, Hw.
  pose proof (packLDrawModel_walked _ _ _ _ _ Hp Hd Hw) as Heq.
  rewrite Hpack in Heq.
  destruct (stillMissing st); [|done]. injection Heq as Hpacked _.
  pose proof (parseObject_grows _ _ _ _ _ _ Hw)
    as [(ps & Hps & cs & Hcs & Hlen) _ _ _].
  cbn [logEffect emptyStore objectsPaths objectsContents app] in Hps, Hcs.
  assert (length (objectsPaths st) = length (objectsContents st)) as Hsame
    by (by rewrite Hps, Hcs).
  rewrite Hsame, appendContents_all, !append_assoc in Hpacked.
  exists m, r, st. repeat (split; [done|]).
  intros rootPath ->.
  destruct (parseObject_pushes_last _ _ _ _ _ _ Hw)
    as (paths & docs & rootDoc & Hpaths & Hdocs & Hl & Hscan).
  cbn [logEffect emptyStore objectsPaths objectsContents app] in Hpaths, Hdocs.
  exists paths, docs, rootDoc. repeat (split; [done|]).
  rewrite Hpacked, Hdocs, rev_unit. unfold concatAll at 1.
  cbn [fold_right]. fold (concatAll (rev docs)). by rewrite !append_assoc.
Qed.

(** C4. A pack whose materials file is absent or cannot be read throws
    with no read of the walk performed. Otherwise, once the walk has ended,
    the pack throws exactly when some entry of the Not-found list has no
    truthy answer in the resolution map, and returns an artifact exactly
    when there is no such entry. For a name that [Object.prototype] does
    not define, having no truthy answer is having no entry in the map. *)
Theorem pack_failure_conditions (depth : nat) (fileName : string) :
  let materialsFilePath := Path.join [ldrawPath; materialsFileName] in
  let unresolved st :=
    exists name,
      name ∈ listOfNotFound st /\ mapped (pathMap st) name = false in
  (present materialsFilePath = false \/ disk materialsFilePath = None ->
   exists message log,
     packLDrawModel depth fileName = Some (Thrown message, log) /\
     forall e, e ∈ log -> e = Read materialsFilePath) /\
  (forall materialsContent r st,
     present materialsFilePath = true ->
     disk materialsFilePath = Some materialsContent ->
     parseObject depth fileName true
       (logEffect (Read materialsFilePath) emptyStore) = Some (r, st) ->
     (unresolved st <->
      exists message log,
        packLDrawModel depth fileName = Some (Thrown message, log)) /\
     (~ unresolved st <->
      exists packedContent log,
        packLDrawModel depth fileName = Some (Packed packedContent, log)) /\
     (forall name, inherited name = false ->
        mapped (pathMap st) name = false <-> pathMap st !! name = None)).
Proof.
  intros mat unresolved. split.
  - unfold packLDrawModel. fold mat. intros [Hp|Hd].
    + rewrite Hp. cbn [negb]. do 2 eexists. split; [done|].
      by intros e ?%elem_of_nil.
    + destruct (present mat); cbn [negb].
      * rewrite Hd. do 2 eexists. split; [done|].
        by intros e ->%list_elem_of_singleton.
      * do 2 eexists. split; [done|]. by intros e ?%elem_of_nil.
  - intros m r st Hp Hd Hw.
    rewrite (packLDrawModel_walked _ _ _ _ _ Hp Hd Hw).
    assert (unresolved st <-> stillMissing st <> []) as ->.
    { unfold unresolved. split.
      - intros (name & Hin & Hm) E.
        assert (name ∈ stillMissing st) as Hs by by apply stillMissing_elem.
        rewrite E in Hs. by apply elem_of_nil in Hs.
      - destruct (stillMissing st) as [|name l] eqn:E; [done|]. intros _.
        exists name. apply stillMissing_elem. rewrite E. by left. }
    assert (valuesTruthy st) as Hvalues.
    { eapply parseObject_valuesTruthy; [exact Hw|]. by intros key path. }
    split; [|split; [|intros name; by apply mapped_own_entry]].
    + destruct (stillMissing st) as [|name l]; split;
        [done|by intros (? & ? & [=])|intros _; by do 2 eexists|done].
    + destruct (stillMissing st) as [|name l]; split;
        [intros _; by do 2 eexists|intros _ E; by apply E
        |intros E; by destruct E|by intros (? & ? & [=])].
Qed.

(** C5, as the code has it. When a pack fails because references are
    missing, what reaches the caller is the fixed message of the error, as
    the details of a response with status 500, the same whatever the
    missing names are; the names themselves, every entry of the Not-found
    list that is still unresolved, in the order of the list, are only
    written to the console, after the effects of the walk. *)
Theorem missing_references_failure (depth : nat)
    (fileName requestName materialsContent : string) (r : option string)
    (st : Store) :
  let materialsFilePath := Path.join [ldrawPath; materialsFileName] in
  present materialsFilePath = true ->
  disk materialsFilePath = Some materialsContent ->
  parseObject depth fileName true
    (logEffect (Read materialsFilePath) emptyStore) = Some (r, st) ->
  stillMissing st <> [] ->
  exists o,
    packLDrawModel depth fileName
    = Some (o, effects st ++ map ConsoleMissing (stillMissing st)) /\
    respond requestName o
    = Failure 500 "Failed to pack model"
        "Some files were not found during packing".
Proof.
  intros mat Hp Hd Hw Hmissing.
  rewrite (packLDrawModel_walked _ _ _ _ _ Hp Hd Hw).
  destruct (stillMissing st); [done|]. by eexists.
Qed.

(** ** What the scan writes *)

Lemma scanLine_output recurse i raw processed st processed' st' :
  scanLine recurse i raw processed st = Some (processed', st') ->
  processed'
  = processed +:+
    (if Js.startsWith "0 FILE " (stripped raw) && (i =? 0) then ""
     else stripped raw +:+ Js.nl).
Proof.
  unfold scanLine. fold (stripped raw).
  destruct (Js.startsWith "0 FILE " _); cbn [andb].
  - destruct (i =? 0); intros [= <- _]; [by rewrite append_empty|done].
  - destruct (if Js.startsWith "1 " _ then _ else _) as [st1|]; [|done].
    by intros [= <- _].
Qed.

Lemma scanLines_output recurse lines : forall i processed st processed' st',
  scanLines recurse i lines processed st = Some (processed', st') ->
  processed' = processed +:+ rewriteLines i lines.
Proof.
  induction lines as [|raw rest IH]; intros i processed st processed' st' H.
  - rewrite scanLines_done in H. injection H as <- _.
    cbn [rewriteLines]. by rewrite append_empty.
  - rewrite scanLines_step in H.
    destruct (scanLine _ _ _ _ _) as [[p1 st1]|] eqn:H1; [|done].
    apply scanLine_output in H1 as ->. apply IH in H as ->.
    cbn [rewriteLines]. by rewrite append_assoc.
Qed.

(** X1. The rewritten output of a scan is the output so far followed by the
    lines scanned, each with its leading spaces and tabs skipped and a
    newline added, a ['0 FILE '] line at index 0 left out; it does not
    depend on the store, on the disk, or on what the walker returns for the
    references. *)
Theorem scan_output_is_the_lines
    (recurse : string -> Store -> option (option string * Store))
    (lines : list string) (i : nat) (processed : string) (st : Store)
    (processed' : string) (st' : Store) :
  scanLines recurse i lines processed st = Some (processed', st') ->
  processed' = processed +:+ rewriteLines i lines.
Proof. apply scanLines_output. Qed.

(** ** What a walk does to the store, step by step *)

(** The resolution only logs effects and, when nothing could be read,
    pushes the name on the Not-found list. *)
Lemma resolveContent_store name isRoot st :
  let st' := snd (resolveContent name isRoot st) in
  objectsPaths st' = objectsPaths st /\
  objectsContents st' = objectsContents st /\
  pathMap st' = pathMap st.
Proof.
  unfold resolveContent, readFileSync.
  destruct isRoot; (destruct (negb _); [|done]); rewrite searchLoop_spec;
    cbv zeta;
    repeat match goal with
           | |- context [match firstHit ?l with _ => _ end] =>
               destruct (firstHit l)
           end; done.
Qed.

(** A root that can be read directly, with a content that is not empty, is
    not searched in the library. *)
Lemma resolveContent_direct name content st :
  disk name = Some content -> Js.truthy content = true ->
  resolveContent name true st
  = (Some content, "", name, logEffect (Read name) st).
Proof.
  intros Hdisk Htruthy. unfold resolveContent, readFileSync.
  by rewrite Hdisk; cbn [Js.truthyOpt]; rewrite Htruthy.
Qed.

(** A walk that returns has resolved a content; it returns [null] with the
    store of the resolution, or the path after the scan and the push of the
    document, which is the header, if any, and the lines rewritten. *)
Lemma parseObject_inv depth name isRoot st r st' :
  parseObject depth name isRoot st = Some (r, st') ->
  exists depth' content0 prefix fileName st1,
    depth = S depth' /\
    resolveContent name isRoot st = (content0, prefix, fileName, st1) /\
    ((r = None /\ st' = st1 /\ Js.truthyOpt content0 = false) \/
     exists content st2,
       content0 = Some content /\ Js.truthy content = true /\
       r = Some (objectPathOf prefix fileName) /\
       scanLines (fun n => parseObject depth' n false) 0 (linesOf content)
         (if isRoot then ""
          else fileHeader (objectPathOf prefix fileName)) st1
       = Some ((if isRoot then ""
                else fileHeader (objectPathOf prefix fileName)) +:+
               rewriteLines 0 (linesOf content), st2) /\
       st' = pushObject (objectPathOf prefix fileName)
               ((if isRoot then ""
                 else fileHeader (objectPathOf prefix fileName)) +:+
                rewriteLines 0 (linesOf content)) st2).
Proof.
  destruct depth as [|depth]; [done|]. rewrite parseObject_step.
  destruct (resolveContent _ _ _) as [[[content0 prefix] fileName] st1] eqn:H1.
  intros H. exists depth, content0, prefix, fileName, st1.
  split; [done|]. split; [done|]. unfold rewriteObject in H.
  destruct content0 as [content|]; [|left; by simplify_eq].
  destruct (Js.truthy content) eqn:Ht; cbn [negb] in H;
    [|left; cbn [Js.truthyOpt]; by simplify_eq].
  fold (linesOf content) in H. fold (fileHeader (objectPathOf prefix fileName)) in H.
  destruct (scanLines _ _ _ _ _) as [[doc st2]|] eqn:H2; [|done].
  right. exists content, st2. injection H as <- <-.
  pose proof (scanLines_output _ _ _ _ _ _ _ H2) as ->.
  by rewrite H2.
Qed.

Section WalkInvariant.

(** A relation between the store a walk starts from and the one it leaves,
    kept by each step a walk is made of. *)
Variable R : Store -> Store -> Prop.
Hypothesis R_refl : forall st, R st st.
Hypothesis R_trans : forall a b c, R a b -> R b c -> R a c.
Hypothesis R_resolve : forall name st content prefix fileName st',
  resolveContent name false st = (content, prefix, fileName, st') -> R st st'.
Hypothesis R_declare : forall sub st,
  Js.truthy sub = true -> mapped (pathMap st) sub = false ->
  R st (setPath sub sub st).
Hypothesis R_place : forall depth name path st st1,
  Js.truthy name = true -> mapped (pathMap st) name = false ->
  parseObject depth name false st = Some (Some path, st1) ->
  Js.truthy path = true -> R st st1 -> R st (setPath name path st1).
Hypothesis R_push : forall path body st,
  R st (pushObject path (fileHeader path +:+ body) st).

Lemma scanLine_walk depth i raw processed st processed' st' :
  (forall name st r st',
     parseObject depth name false st = Some (r, st') -> R st st') ->
  scanLine (fun n => parseObject depth n false) i raw processed st
    = Some (processed', st') ->
  R st st'.
Proof.
  unfold scanLine. intros IH H.
  destruct (Js.startsWith "0 FILE " _).
  - destruct (i =? 0); simplify_eq; [done|].
    destruct (Js.truthy _) eqn:Ht; [|done].
    destruct (mapped _ _) eqn:Hm; [done|]. by apply R_declare.
  - destruct (Js.startsWith "1 " _); [|by simplify_eq].
    destruct (referenceOf _) as [name|]; [|by simplify_eq].
    destruct (Js.truthy name) eqn:Hn; cbn [andb] in H; [|by simplify_eq].
    destruct (mapped _ name) eqn:Hm; cbn [negb] in H; [by simplify_eq|].
    destruct (parseObject depth name false st) as [[r st1]|] eqn:Hr; [|done].
    destruct r as [path|]; cbn [Js.truthyOpt default] in H.
    + destruct (Js.truthy path) eqn:Hp; simplify_eq; [|by eapply IH].
      eapply R_place; [done..|]. by eapply IH.
    + simplify_eq. by eapply IH.
Qed.

Lemma scanLines_walk depth lines : forall i processed st processed' st',
  (forall name st r st',
     parseObject depth name false st = Some (r, st') -> R st st') ->
  scanLines (fun n => parseObject depth n false) i lines processed st
    = Some (processed', st') ->
  R st st'.
Proof.
  induction lines as [|raw rest IHl]; intros i processed st processed' st' IH H;
    [rewrite scanLines_done in H|rewrite scanLines_step in H]; [by simplify_eq|].
  destruct (scanLine _ _ _ _ _) as [[p1 st1]|] eqn:H1; [|done].
  eapply R_trans; [by eapply scanLine_walk|by eapply IHl].
Qed.

Lemma parseObject_walk depth : forall name st r st',
  parseObject depth name false st = Some (r, st') -> R st st'.
Proof.
  induction depth as [|depth IH]; [done|]. intros name st r st' H.
  destruct (parseObject_inv _ _ _ _ _ _ H)
    as (depth' & content0 & prefix & fileName & st1 & [= <-] & H1
        & [(_ & -> & _)|(content & st2 & _ & _ & _ & H2 & ->)]).
  - by eapply R_resolve.
  - eapply R_trans; [by eapply R_resolve|].
    eapply R_trans; [by eapply scanLines_walk|]. apply R_push.
Qed.

Lemma scanLines_walked depth lines i processed st processed' st' :
  scanLines (fun n => parseObject depth n false) i lines processed st
    = Some (processed', st') ->
  R st st'.
Proof. apply scanLines_walk, parseObject_walk. Qed.

(** The relation is kept by every walk that is not the root's and by every
    scan of lines. *)
Lemma walks_keep :
  (forall depth name st r st',
     parseObject depth name false st = Some (r, st') -> R st st') /\
  (forall depth lines i processed st processed' st',
     scanLines (fun n => parseObject depth n false) i lines processed st
       = Some (processed', st') -> R st st').
Proof. split; [apply parseObject_walk|apply scanLines_walked]. Qed.

End WalkInvariant.

(** ** Lists that are only appended to *)

Lemma appended_refl {A} (proj : Store -> list A) P st : appended proj P st st.
Proof. exists []. by rewrite app_nil_r. Qed.

Lemma appended_trans {A} (proj : Store -> list A) P a b c :
  appended proj P a b -> appended proj P b c -> appended proj P a c.
Proof.
  intros (l & Hl & Pl) (l' & Hl' & Pl'). exists (l ++ l').
  rewrite Hl', Hl, <- app_assoc. split; [done|]. by apply Forall_app.
Qed.

Lemma appended_same {A} (proj : Store -> list A) P st st' :
  proj st' = proj st -> appended proj P st st'.
Proof. intros H. exists []. by rewrite app_nil_r. Qed.

Lemma appended_weaken {A} (proj : Store -> list A) (P Q : A -> Prop) st st' :
  (forall x, P x -> Q x) -> appended proj P st st' -> appended proj Q st st'.
Proof.
  intros HPQ (l & Hl & Pl). exists l. split; [done|].
  by eapply Forall_impl.
Qed.

Lemma attempted_subset paths path :
  path ∈ attempted paths -> path ∈ paths.
Proof.
  induction paths as [|p rest IH]; [done|]. cbn [attempted].
  intros [->|Hin]%elem_of_cons; [by left|]. right.
  destruct (disk p); [by apply elem_of_nil in Hin|by apply IH].
Qed.

Lemma candidates_library name path :
  path ∈ candidates name -> libraryLocation path.
Proof.
  unfold candidates. intros (prefix & -> & Hin)%list_elem_of_fmap.
  by exists prefix, name.
Qed.

Lemma attempted_reads_library name :
  Forall walkEffect (map Read (attempted (candidates name))).
Proof.
  apply Forall_forall. intros e (path & -> & Hin)%list_elem_of_fmap.
  by eapply candidates_library, attempted_subset.
Qed.

(** The effects of the search of the library for [name]. *)
Lemma searchLoop_effects name content st :
  appended effects walkEffect st
    (snd (searchLoop [0; 1] name content "" name st)).
Proof.
  rewrite searchLoop_spec. cbv zeta.
  pose proof (attempted_reads_library name) as H1.
  pose proof (attempted_reads_library (Js.toLowerCase name)) as H2.
  destruct (firstHit (candidates name)).
  - by eexists.
  - destruct (firstHit (candidates (Js.toLowerCase name))).
    + cbn [snd]. rewrite logAll_logAll. eexists. split; [done|].
      by apply Forall_app.
    + cbn [snd]. rewrite logAll_logAll, pushNotFound_logAll. eexists.
      split; [done|]. apply Forall_app. split; [by apply Forall_app|].
      by repeat constructor.
Qed.

(** The names the search of the library pushes on the Not-found list. *)
Lemma searchLoop_notFound name content st :
  appended listOfNotFound nowhere st
    (snd (searchLoop [0; 1] name content "" name st)).
Proof.
  rewrite searchLoop_spec. cbv zeta.
  destruct (firstHit (candidates name)) eqn:E1;
    [by apply appended_same|].
  destruct (firstHit (candidates (Js.toLowerCase name))) eqn:E2;
    [by apply appended_same|].
  exists [name]. split; [done|]. repeat constructor.
  - by apply firstHit_None in E1 as [-> _].
  - by apply firstHit_None in E2 as [-> _].
Qed.

Lemma resolveContent_notFound name isRoot st :
  appended listOfNotFound nowhere st (snd (resolveContent name isRoot st)).
Proof.
  unfold resolveContent, readFileSync. destruct isRoot.
  - destruct (negb _); [|by apply appended_same].
    eapply appended_trans; [|apply searchLoop_notFound].
    by apply appended_same.
  - apply searchLoop_notFound.
Qed.

Lemma resolveContent_effects name isRoot st :
  appended effects
    (fun e => walkEffect e \/ (isRoot = true /\ e = Read name)) st
    (snd (resolveContent name isRoot st)).
Proof.
  unfold resolveContent, readFileSync. destruct isRoot.
  - assert (appended effects
              (fun e => walkEffect e \/ (true = true /\ e = Read name)) st
              (logEffect (Read name) st)) as Hread.
    { exists [Read name]. split; [done|]. constructor; [by right|constructor]. }
    destruct (negb _); [|exact Hread].
    eapply appended_trans; [exact Hread|].
    eapply appended_weaken; [|apply searchLoop_effects]. by left.
  - eapply appended_weaken; [|apply searchLoop_effects]. by left.
Qed.

(** The effects a walk logs: reads of library locations, pushes on the
    Not-found list and, for a root, the read of the path given. *)
Lemma parseObject_effects depth name isRoot st r st' :
  parseObject depth name isRoot st = Some (r, st') ->
  appended effects
    (fun e => walkEffect e \/ (isRoot = true /\ e = Read name)) st st'.
Proof.
  intros H.
  destruct (parseObject_inv _ _ _ _ _ _ H)
    as (depth' & content0 & prefix & fileName & st1 & -> & H1
        & [(_ & -> & _)|(content & st2 & _ & _ & _ & H2 & ->)]);
    pose proof (resolveContent_effects name isRoot st) as Hres;
    rewrite H1 in Hres; cbn [snd] in Hres; [done|].
  eapply appended_trans; [exact Hres|].
  apply (appended_trans _ _ _ st2); [|by apply appended_same].
  eapply appended_weaken; [intros e He; left; exact He|].
  eapply (scanLines_walked (appended effects walkEffect)); [..|exact H2].
  - apply appended_refl.
  - apply appended_trans.
  - intros n s c p f s' Hr.
    pose proof (resolveContent_effects n false s) as Hn. rewrite Hr in Hn.
    eapply appended_weaken; [|exact Hn]. by intros e [He|[[=] _]].
  - intros. by apply appended_same.
  - intros ? ? ? ? ? _ _ _ _ Hs. eapply appended_trans; [exact Hs|].
    by apply appended_same.
  - intros. by apply appended_same.
Qed.

(** ** The documents and the entries a walk leaves *)

Lemma appendedHeaded_refl st : appendedHeaded st st.
Proof. exists [], []. by rewrite !app_nil_r. Qed.

Lemma appendedHeaded_trans a b c :
  appendedHeaded a b -> appendedHeaded b c -> appendedHeaded a c.
Proof.
  intros (ps & cs & Hp & Hc & Hh) (ps' & cs' & Hp' & Hc' & Hh').
  exists (ps ++ ps'), (cs ++ cs'). rewrite Hp', Hp, Hc', Hc, <- !app_assoc.
  split; [done|]. split; [done|]. by apply Forall2_app.
Qed.

Lemma appendedHeaded_same st st' :
  objectsPaths st' = objectsPaths st ->
  objectsContents st' = objectsContents st -> appendedHeaded st st'.
Proof. intros Hp Hc. exists [], []. by rewrite !app_nil_r. Qed.

(** The documents a walk that is not the root's appends are paired with
    their paths and begin with their headers. *)
Lemma walks_keep_headed :
  (forall depth name st r st',
     parseObject depth name false st = Some (r, st') ->
     appendedHeaded st st') /\
  (forall depth lines i processed st processed' st',
     scanLines (fun n => parseObject depth n false) i lines processed st
       = Some (processed', st') -> appendedHeaded st st').
Proof.
  apply (walks_keep appendedHeaded).
  - apply appendedHeaded_refl.
  - apply appendedHeaded_trans.
  - intros n s c p f s' Hr.
    destruct (resolveContent_store n false s) as (Hp & Hc & _).
    rewrite Hr in Hp, Hc. by apply appendedHeaded_same.
  - intros. by apply appendedHeaded_same.
  - intros ? ? ? ? ? _ _ _ _ Hs. eapply appendedHeaded_trans; [exact Hs|].
    by apply appendedHeaded_same.
  - intros path body s. exists [path], [fileHeader path +:+ body].
    split; [done|]. split; [done|]. repeat constructor. by exists body.
Qed.

Lemma entriesSound_refl st : entriesSound st st.
Proof. intros name path H. by left. Qed.

Lemma entriesSound_trans a b c :
  entriesSound a b -> entriesSound b c -> entriesSound a c.
Proof.
  intros Hab Hbc name path H.
  destruct (Hbc _ _ H) as [Hb|Hrest]; [by apply Hab|by right].
Qed.

Lemma entriesSound_same st st' :
  pathMap st' = pathMap st -> entriesSound st st'.
Proof. intros Hm name path H. left. by rewrite <- Hm. Qed.

(** The path a walk that is not the root's returns is the canonical path
    of the name. *)
Lemma parseObject_canonical depth name st p st' :
  parseObject depth name false st = Some (Some p, st') ->
  canonicalPath prefixAfterHit name = Some p.
Proof.
  intros H.
  destruct (parseObject_inv _ _ _ _ _ _ H)
    as (depth' & content0 & prefix & fileName & st1 & _ & H1
        & [([=] & _)|(content & st2 & -> & _ & [= ->] & _)]).
  rewrite resolveContent_nonroot, searchLoop_spec in H1. cbv zeta in H1.
  unfold canonicalPath.
  destruct (firstHit (candidates name)) as [k|]; [by simplify_eq|].
  destruct (firstHit (candidates (Js.toLowerCase name))) as [k|];
    by simplify_eq.
Qed.

Lemma walks_keep_entriesSound :
  (forall depth name st r st',
     parseObject depth name false st = Some (r, st') ->
     entriesSound st st') /\
  (forall depth lines i processed st processed' st',
     scanLines (fun n => parseObject depth n false) i lines processed st
       = Some (processed', st') -> entriesSound st st').
Proof.
  apply (walks_keep entriesSound).
  - apply entriesSound_refl.
  - apply entriesSound_trans.
  - intros n s c p f s' Hr.
    destruct (resolveContent_store n false s) as (_ & _ & Hm).
    rewrite Hr in Hm. by apply entriesSound_same.
  - intros sub s _ _ key path. cbn [setPath pathMap].
    destruct (decide (sub = key)) as [->|Hne].
    + rewrite lookup_insert_eq. intros [= <-]. right. by left.
    + rewrite lookup_insert_ne by done. by left.
  - intros d n path s s1 _ _ Hwalk _ Hs key v. cbn [setPath pathMap].
    destruct (decide (n = key)) as [->|Hne].
    + rewrite lookup_insert_eq. intros [= <-]. right. right.
      by eapply parseObject_canonical.
    + rewrite lookup_insert_ne by done. apply Hs.
  - intros. by apply entriesSound_same.
Qed.

(** X4. All the documents a walk appends are paired with their paths, and
    each of them begins with the header line of its own path, the root
    document, which has no header and comes last, excepted. *)
Theorem embedded_documents_carry_their_header (depth : nat) (name : string)
    (isRoot : bool) (st : Store) (r : option string) (st' : Store) :
  parseObject depth name isRoot st = Some (r, st') ->
  exists paths docs,
    objectsPaths st' = objectsPaths st ++ paths /\
    objectsContents st' = objectsContents st ++ docs /\
    Forall2 headed (if isRoot then removelast paths else paths)
                   (if isRoot then removelast docs else docs).
Proof.
  destruct isRoot; [|apply (proj1 walks_keep_headed)].
  intros H.
  destruct (parseObject_inv _ _ _ _ _ _ H)
    as (depth' & content0 & prefix & fileName & st1 & -> & H1
        & [(_ & -> & _)|(content & st2 & _ & _ & _ & H2 & ->)]);
    destruct (resolveContent_store name true st) as (Hp & Hc & _);
    rewrite H1 in Hp, Hc; cbn [snd] in Hp, Hc.
  - exists [], []. rewrite !app_nil_r. repeat (split; [done|]). constructor.
  - destruct (proj2 walks_keep_headed _ _ _ _ _ _ _ H2)
      as (ps & cs & Hps & Hcs & Hh).
    exists (ps ++ [objectPathOf prefix fileName]),
           (cs ++ ["" +:+ rewriteLines 0 (linesOf content)]).
    cbn [pushObject objectsPaths objectsContents].
    rewrite Hps, Hcs, Hp, Hc, <- !app_assoc, !removelast_last. done.
Qed.

(** X6. Every entry a walk adds to the resolution map, or overwrites, maps
    a name to itself (a sub-model declared in place) or to the canonical
    path under which the library search finds that name. *)
Theorem resolution_map_entries_are_sound (depth : nat) (name : string)
    (isRoot : bool) (st : Store) (r : option string) (st' : Store) :
  parseObject depth name isRoot st = Some (r, st') ->
  forall key path,
    pathMap st' !! key = Some path ->
    pathMap st !! key = Some path \/ path = key \/
    canonicalPath prefixAfterHit key = Some path.
Proof.
  intros H.
  destruct (parseObject_inv _ _ _ _ _ _ H)
    as (depth' & content0 & prefix & fileName & st1 & -> & H1
        & [(_ & -> & _)|(content & st2 & _ & _ & _ & H2 & ->)]);
    destruct (resolveContent_store name isRoot st) as (_ & _ & Hm);
    rewrite H1 in Hm; cbn [snd] in Hm.
  - intros key path Hk. left. by rewrite <- Hm.
  - intros key path Hk. cbn [pushObject pathMap] in Hk.
    destruct (proj2 walks_keep_entriesSound _ _ _ _ _ _ _ H2 _ _ Hk)
      as [Hs|Hrest]; [left; by rewrite <- Hm|by right].
Qed.

(** X5. Every name a walk pushes on the Not-found list is really missing:
    none of its four candidates, and none of the four candidates of its
    lowercased form, can be read. *)
Theorem not_found_names_are_missing (depth : nat) (name : string)
    (isRoot : bool) (st : Store) (r : option string) (st' : Store) :
  parseObject depth name isRoot st = Some (r, st') ->
  exists pushed,
    listOfNotFound st' = listOfNotFound st ++ pushed /\
    Forall nowhere pushed.
Proof.
  intros H. change (appended listOfNotFound nowhere st st').
  destruct (parseObject_inv _ _ _ _ _ _ H)
    as (depth' & content0 & prefix & fileName & st1 & -> & H1
        & [(_ & -> & _)|(content & st2 & _ & _ & _ & H2 & ->)]);
    pose proof (resolveContent_notFound name isRoot st) as Hres;
    rewrite H1 in Hres; cbn [snd] in Hres; [done|].
  eapply appended_trans; [exact Hres|].
  apply (appended_trans _ _ _ st2); [|by apply appended_same].
  eapply (scanLines_walked (appended listOfNotFound nowhere)); [..|exact H2].
  - apply appended_refl.
  - apply appended_trans.
  - intros n s c p f s' Hr.
    pose proof (resolveContent_notFound n false s) as Hn. by rewrite Hr in Hn.
  - intros. by apply appended_same.
  - intros ? ? ? ? ? _ _ _ _ Hs. eapply appended_trans; [exact Hs|].
    by apply appended_same.
  - intros. by apply appended_same.
Qed.

(** X2. The document embedded for a reference that is not the root is the
    header line of its canonical path followed by the lines, rewritten, of
    the file read at the first candidate that can be read, in the
    original-case pass or else in the lowercased one. It is the last
    document appended when the walk returns. *)
Theorem embedded_document (depth : nat) (name : string) (st : Store)
    (p : string) (st' : Store) :
  parseObject depth name false st = Some (Some p, st') ->
  exists fileName k content,
    (fileName = name \/
     (firstHit (candidates name) = None /\ fileName = Js.toLowerCase name)) /\
    firstHit (candidates fileName) = Some k /\
    disk (nth k (candidates fileName) "") = Some content /\
    p = objectPathOf (prefixAfterHit k fileName) fileName /\
    last (objectsPaths st') = Some p /\
    last (objectsContents st')
      = Some (fileHeader p +:+ rewriteLines 0 (linesOf content)).
Proof.
  intros H.
  destruct (parseObject_inv _ _ _ _ _ _ H)
    as (depth' & content0 & prefix & fileName & st1 & _ & H1
        & [([=] & _)|(content & st2 & -> & _ & [= ->] & _ & ->)]).
  cbn [pushObject objectsPaths objectsContents]. rewrite !last_snoc.
  rewrite resolveContent_nonroot, searchLoop_spec in H1. cbv zeta in H1.
  destruct (firstHit (candidates name)) as [k|] eqn:E1.
  - injection H1 as Hc <- <- _. exists name, k, content. auto 10.
  - destruct (firstHit (candidates (Js.toLowerCase name))) as [k|] eqn:E2;
      [|done].
    injection H1 as Hc <- <- _. exists (Js.toLowerCase name), k, content.
    auto 10.
Qed.

(** The walk of a root that is read directly. *)
Lemma parseObject_root_direct (depth : nat) (name content : string)
    (st : Store) (r : option string) (st' : Store) :
  disk name = Some content ->
  Js.truthy content = true ->
  parseObject depth name true st = Some (r, st') ->
  r = Some (objectPathOf "" name) /\
  last (objectsPaths st') = Some (objectPathOf "" name) /\
  last (objectsContents st') = Some (rewriteLines 0 (linesOf content)) /\
  exists depth' st2,
    depth = S depth' /\
    scanLines (fun n => parseObject depth' n false) 0 (linesOf content) ""
      (logEffect (Read name) st)
      = Some (rewriteLines 0 (linesOf content), st2) /\
    st' = pushObject (objectPathOf "" name)
            (rewriteLines 0 (linesOf content)) st2.
Proof.
  intros Hdisk Htruthy H.
  destruct (parseObject_inv _ _ _ _ _ _ H)
    as (depth' & content0 & prefix & fileName & st1 & -> & H1
        & [(_ & _ & Hfalsy)|(c & st2 & Hc & _ & -> & H2 & ->)]);
    rewrite (resolveContent_direct _ _ _ Hdisk Htruthy) in H1;
    injection H1 as <- <- <- <-.
  - cbn [Js.truthyOpt] in Hfalsy. congruence.
  - injection Hc as <-.
    cbn [pushObject objectsPaths objectsContents]. rewrite !last_snoc.
    repeat (split; [done|]). by exists depth', st2.
Qed.

(** X3. A root that can be read directly, with a content that is not
    empty, is not searched in the library: after the one read of the path
    given the scan starts, the canonical path is that path (trimmed, with
    forward slashes) and the root document is the lines of the content,
    rewritten, with no header. *)
Theorem root_read_directly (depth : nat) (name content : string)
    (st : Store) (r : option string) (st' : Store) :
  disk name = Some content ->
  Js.truthy content = true ->
  parseObject depth name true st = Some (r, st') ->
  r = Some (objectPathOf "" name) /\
  last (objectsPaths st') = Some (objectPathOf "" name) /\
  last (objectsContents st') = Some (rewriteLines 0 (linesOf content)) /\
  exists depth' st2,
    depth = S depth' /\
    scanLines (fun n => parseObject depth' n false) 0 (linesOf content) ""
      (logEffect (Read name) st)
      = Some (rewriteLines 0 (linesOf content), st2) /\
    st' = pushObject (objectPathOf "" name)
            (rewriteLines 0 (linesOf content)) st2.
Proof. apply parseObject_root_direct. Qed.

Lemma scanLine_declares recurse i raw processed st processed' st' :
  i <> 0 ->
  Js.startsWith "0 FILE " (stripped raw) = true ->
  Js.truthy (declaredName raw) = true ->
  scanLine recurse i raw processed st = Some (processed', st') ->
  mapped (pathMap st') (declaredName raw) = true /\
  objectsPaths st' = objectsPaths st /\
  objectsContents st' = objectsContents st /\
  listOfNotFound st' = listOfNotFound st /\
  effects st' = effects st.
Proof.
  intros Hi Hmarker Hname. unfold scanLine. fold (stripped raw).
  rewrite Hmarker. destruct (i =? 0) eqn:E; [by apply Nat.eqb_eq in E|].
  fold (declaredName raw). rewrite Hname.
  destruct (mapped (pathMap st) _) eqn:Hm; intros [= _ <-]; [done|].
  split; [|done]. cbn [setPath pathMap]. unfold mapped.
  by rewrite lookup_insert_eq.
Qed.

Lemma grows_mapped st st' key :
  grows st st' -> mapped (pathMap st) key = true ->
  mapped (pathMap st') key = true.
Proof.
  intros [_ _ _ Hm] Hk. by rewrite (mapped_lookup _ _ _ (Hm key Hk)).
Qed.

(** After a scan, the sub-name of every ['0 FILE '] line scanned at an
    index other than 0 has a truthy answer in the resolution map. *)
Lemma scanLines_declared depth lines : forall i processed st processed' st' k raw,
  scanLines (fun n => parseObject depth n false) i lines processed st
    = Some (processed', st') ->
  lines !! k = Some raw ->
  i + k <> 0 ->
  Js.startsWith "0 FILE " (stripped raw) = true ->
  Js.truthy (declaredName raw) = true ->
  mapped (pathMap st') (declaredName raw) = true.
Proof.
  induction lines as [|line rest IH];
    intros i processed st processed' st' k raw H Hk Hi Hmarker Hname; [done|].
  rewrite scanLines_step in H.
  destruct (scanLine _ _ _ _ _) as [[p1 st1]|] eqn:H1; [|done].
  destruct k as [|k]; cbn in Hk.
  - injection Hk as ->. assert (i <> 0) as Hi0 by lia.
    destruct (scanLine_declares _ _ _ _ _ _ _ Hi0 Hmarker Hname H1)
      as (Hm & _).
    eapply grows_mapped; [|exact Hm].
    eapply scanLines_grows; [|exact H]. intros n s r s'. apply parseObject_grows.
  - eapply (IH (S i)); [exact H|exact Hk|lia|done..].
Qed.

(** X8. Once a ['0 FILE '] line that is not the first line has been
    scanned, nothing having been read for it, a placement line that names
    the sub-model it declares is answered by the resolution map, whatever
    is scanned in between: the store, and the log of reads with it, is
    left as it was. *)
Theorem placement_after_declaration (depth : nat) (decl raw : string)
    (between : list string) (i j : nat)
    (processed processed1 processed2 : string) (st st1 st2 : Store) :
  i <> 0 ->
  Js.startsWith "0 FILE " (stripped decl) = true ->
  Js.truthy (declaredName decl) = true ->
  scanLine (fun n => parseObject depth n false) i decl processed st
    = Some (processed1, st1) ->
  scanLines (fun n => parseObject depth n false) j between processed1 st1
    = Some (processed2, st2) ->
  placementOf raw = Some (declaredName decl) ->
  effects st1 = effects st /\
  forall recurse k processed',
    scanLine recurse k raw processed' st2
    = Some (processed' +:+ stripped raw +:+ Js.nl, st2).
Proof.
  intros Hi Hmarker Hname Hdecl Hscan Hraw.
  destruct (scanLine_declares _ _ _ _ _ _ _ Hi Hmarker Hname Hdecl)
    as (Hm & _ & _ & _ & He).
  split; [exact He|]. intros recurse k processed'.
  rewrite (scanLine_placement _ _ _ _ _ _ Hraw), Hname.
  assert (mapped (pathMap st2) (declaredName decl) = true) as ->; [|done].
  eapply grows_mapped; [|exact Hm].
  eapply scanLines_grows; [|exact Hscan]. intros n s r s'. apply parseObject_grows.
Qed.

(** ** The log of a pack *)

Lemma materials_location :
  libraryLocation (Path.join [ldrawPath; materialsFileName]).
Proof. exists "", materialsFileName. split; [by left|reflexivity]. Qed.

(** The log of a pack: nothing, the read of the materials alone, or the
    effects of the walk followed by the console lines of the names that
    are still missing. *)
Lemma packLDrawModel_log depth fileName o log :
  let materialsFilePath := Path.join [ldrawPath; materialsFileName] in
  packLDrawModel depth fileName = Some (o, log) ->
  log = [] \/ log = [Read materialsFilePath] \/
  exists r st ev,
    parseObject depth fileName true
      (logEffect (Read materialsFilePath) emptyStore) = Some (r, st) /\
    effects st = Read materialsFilePath :: ev /\
    Forall (fun e => walkEffect e \/ e = Read fileName) ev /\
    log = effects st ++ map ConsoleMissing (stillMissing st).
Proof.
  intros mat Hpack.
  destruct (present mat) eqn:Hp;
    [|unfold packLDrawModel in Hpack; fold mat in Hpack; rewrite Hp in Hpack;
      cbn [negb] in Hpack; left; by simplify_eq].
  destruct (disk mat) as [m|] eqn:Hd;
    [|unfold packLDrawModel in Hpack; fold mat in Hpack;
      rewrite Hp, Hd in Hpack; cbn [negb] in Hpack; right; left;
      by simplify_eq].
  destruct (parseObject depth fileName true (logEffect (Read mat) emptyStore))
    as [[r st]|] eqn:Hw;
    [|unfold packLDrawModel in Hpack; fold mat in Hpack;
      rewrite Hp, Hd in Hpack; cbn [negb] in Hpack; by rewrite Hw in Hpack].
  rewrite (packLDrawModel_walked _ _ _ _ _ Hp Hd Hw) in Hpack.
  injection Hpack as _ <-. right. right.
  destruct (parseObject_effects _ _ _ _ _ _ Hw) as (ev & He & Hev).
  exists r, st, ev. repeat (split; [done|]). split; [|done].
  eapply Forall_impl; [exact Hev|]. by intros e [?|[_ ?]]; [left|right].
Qed.

(** X7. A sub-model declared in place by a ['0 FILE '] line of the root
    content, other than its first line, is never reported missing by the
    pack, also when a placement line scanned before the declaration has
    put it on the Not-found list. *)
Theorem inline_submodel_never_reported (depth : nat)
    (fileName content : string) (o : outcome) (log : list event)
    (k : nat) (raw : string) :
  packLDrawModel depth fileName = Some (o, log) ->
  disk fileName = Some content ->
  Js.truthy content = true ->
  linesOf content !! k = Some raw ->
  k <> 0 ->
  Js.startsWith "0 FILE " (stripped raw) = true ->
  Js.truthy (declaredName raw) = true ->
  ConsoleMissing (declaredName raw) ∉ log.
Proof.
  intros Hpack Hdisk Htruthy Hk Hk0 Hmarker Hname Hin.
  destruct (packLDrawModel_log _ _ _ _ Hpack)
    as [->|[->|(r & st & ev & Hw & He & Hev & ->)]].
  - by apply elem_of_nil in Hin.
  - by apply list_elem_of_singleton in Hin.
  - destruct (parseObject_root_direct _ _ _ _ _ _ Hdisk Htruthy Hw)
      as (_ & _ & _ & depth' & st2 & _ & Hscan & ->).
    assert (mapped (pathMap st2) (declaredName raw) = true) as Hm
      by (eapply (scanLines_declared _ _ 0); [exact Hscan|exact Hk|lia|done..]).
    rewrite He in Hin. apply elem_of_app in Hin as [Hin|Hin].
    + apply elem_of_cons in Hin as [[=]|Hin].
      rewrite Forall_forall in Hev. by destruct (Hev _ Hin) as [[]|[=]].
    + apply list_elem_of_fmap in Hin as (n & [= <-] & Hs).
      apply stillMissing_elem in Hs as [_ Hs].
      cbn [pushObject pathMap] in Hs. congruence.
Qed.

(** ** Line breaks and separators *)

Lemma replaceCRLF_step x y s :
  Js.replaceCRLF (String x (String y s))
  = if (x =? Js.CR)%char && (y =? Js.LF)%char
    then String Js.LF (Js.replaceCRLF s)
    else String x (Js.replaceCRLF (String y s)).
Proof. reflexivity. Qed.

Lemma hasCRLF_step x y s :
  Js.hasCRLF (String x (String y s))
  = ((x =? Js.CR)%char && (y =? Js.LF)%char) || Js.hasCRLF (String y s).
Proof. reflexivity. Qed.

Lemma toCRLF_head c s : toCRLF s <> String Js.LF c.
Proof.
  destruct s as [|x s]; [done|]. cbn [toCRLF].
  destruct (Ascii.eqb_spec x Js.LF) as [->|Hne]; [done|].
  by intros [= -> _].
Qed.

Lemma replaceCRLF_toCRLF s : Js.replaceCRLF (toCRLF s) = s.
Proof.
  induction s as [|x s IH]; [done|]. cbn [toCRLF].
  destruct (Ascii.eqb_spec x Js.LF) as [->|Hne].
  - rewrite replaceCRLF_step. cbn [Ascii.eqb Bool.eqb andb Js.CR Js.LF].
    by rewrite IH.
  - pose proof (toCRLF_head) as Hhead.
    destruct (toCRLF s) as [|y t] eqn:E.
    + by destruct s as [|z s]; [|cbn in E; destruct (z =? Js.LF)%char].
    + rewrite replaceCRLF_step.
      destruct (Ascii.eqb_spec y Js.LF) as [->|Hy];
        [by destruct (Hhead t s)|].
      rewrite andb_false_r. by rewrite IH.
Qed.

Lemma replaceCRLF_without s : Js.hasCRLF s = false -> Js.replaceCRLF s = s.
Proof.
  induction s as [|x s IH]; [done|]. destruct s as [|y s]; [done|].
  rewrite hasCRLF_step, replaceCRLF_step. intros [H1 H2]%orb_false_elim.
  rewrite H1. by rewrite IH.
Qed.

Lemma linesOf_replaceCRLF content :
  linesOf content = Js.split Js.LF (Js.replaceCRLF content).
Proof.
  unfold linesOf. destruct (Js.hasCRLF content) eqn:E; [done|].
  by rewrite replaceCRLF_without.
Qed.

Lemma truthy_toCRLF s : Js.truthy (toCRLF s) = Js.truthy s.
Proof.
  destruct s as [|x s]; [done|]. cbn [toCRLF].
  by destruct (x =? Js.LF)%char.
Qed.

(** X9. A content saved with CR LF line breaks is rewritten, and its
    references are walked, exactly as the same content with LF line
    breaks. *)
Theorem crlf_content_is_walked_as_lf
    (recurse : string -> Store -> option (option string * Store))
    (isRoot : bool) (content prefix fileName : string) (st : Store) :
  Js.hasCRLF content = false ->
  rewriteObject recurse isRoot (Some (toCRLF content)) prefix fileName st
  = rewriteObject recurse isRoot (Some content) prefix fileName st.
Proof.
  intros Hlf. unfold rewriteObject. rewrite truthy_toCRLF.
  fold (linesOf (toCRLF content)). fold (linesOf content).
  by rewrite !linesOf_replaceCRLF, replaceCRLF_toCRLF, replaceCRLF_without.
Qed.

Lemma split_not_nil sep s : Js.split sep s <> [].
Proof.
  destruct s as [|c s]; [done|]. cbn [Js.split].
  destruct (c =? sep)%char; [done|]. by destruct (Js.split sep s).
Qed.

(** Joining the pieces of a split with the separator gives the string
    back. *)
Lemma split_lines_newline s :
  concatAll (map (fun line => line +:+ Js.nl) (Js.split Js.LF s))
  = s +:+ Js.nl.
Proof.
  induction s as [|c s IH]; [done|]. cbn [Js.split].
  destruct (Ascii.eqb_spec c Js.LF) as [->|Hne].
  - cbn [map]. unfold concatAll in *. cbn [fold_right]. by rewrite IH.
  - pose proof (split_not_nil Js.LF s) as Hnil.
    destruct (Js.split Js.LF s) as [|h t]; [done|].
    cbn [map] in *. unfold concatAll in *. cbn [fold_right] in *.
    by rewrite !append_cons, IH.
Qed.

Lemma rewriteLines_later i lines :
  i <> 0 -> Forall (fun line => stripped line = line) lines ->
  rewriteLines i lines = concatAll (map (fun line => line +:+ Js.nl) lines).
Proof.
  revert i. induction lines as [|raw rest IH]; intros i Hi Hall; [done|].
  apply Forall_cons in Hall as [Hraw Hrest]. cbn [rewriteLines map].
  destruct (i =? 0) eqn:E; [by apply Nat.eqb_eq in E|].
  rewrite andb_false_r, Hraw, IH by (done || lia). done.
Qed.

(** A plain content is rewritten as itself and a newline. *)
Lemma rewriteLines_plain_content (content : string) :
  Js.hasCRLF content = false ->
  Forall (fun line => stripped line = line) (Js.split Js.LF content) ->
  Js.startsWith "0 FILE " (hd "" (Js.split Js.LF content)) = false ->
  rewriteLines 0 (linesOf content) = content +:+ Js.nl.
Proof.
  intros Hlf Hall Hfirst.
  rewrite linesOf_replaceCRLF, replaceCRLF_without by done.
  rewrite <- split_lines_newline.
  destruct (Js.split Js.LF content) as [|raw rest]; [done|].
  apply Forall_cons in Hall as [Hraw Hrest]. cbn [hd] in Hfirst.
  cbn [rewriteLines map]. rewrite Hraw, Hfirst. cbn [andb].
  rewrite rewriteLines_later by (done || lia). done.
Qed.

(** X10. A content that is not empty, has LF line breaks, no line
    beginning with a space or a tab, and a first line that is not a
    ['0 FILE '] line is kept as it is: when the rewriting returns, the
    document it has pushed last is the header line, if the file is not the
    root, followed by the content itself and one newline, whatever the
    walks of its references did. *)
Theorem plain_content_is_kept
    (recurse : string -> Store -> option (option string * Store))
    (isRoot : bool) (content prefix fileName : string) (st : Store)
    (r : option string) (st' : Store) :
  Js.truthy content = true ->
  Js.hasCRLF content = false ->
  Forall (fun line => Js.dropWhile Js.isSpaceOrTab line = line)
    (Js.split Js.LF content) ->
  Js.startsWith "0 FILE " (hd "" (Js.split Js.LF content)) = false ->
  rewriteObject recurse isRoot (Some content) prefix fileName st
    = Some (r, st') ->
  r = Some (objectPathOf prefix fileName) /\
  last (objectsPaths st') = Some (objectPathOf prefix fileName) /\
  last (objectsContents st')
    = Some ((if isRoot then ""
             else "0 FILE " +:+ objectPathOf prefix fileName +:+ Js.nl)
            +:+ content +:+ Js.nl).
Proof.
  intros Htruthy Hlf Hall Hfirst. unfold rewriteObject. rewrite Htruthy.
  cbn [negb]. fold (linesOf content).
  destruct (scanLines _ _ _ _ _) as [[doc st2]|] eqn:Hscan; [|done].
  intros [= <- <-]. apply scanLines_output in Hscan as ->.
  rewrite (rewriteLines_plain_content content Hlf Hall Hfirst).
  cbn [pushObject objectsPaths objectsContents]. by rewrite !last_snoc.
Qed.

Lemma slashes_no_backslash s : ~ occursIn "\"%char (Js.slashes s).
Proof.
  unfold occursIn, Js.slashes. induction s as [|c s IH]; [by intros []|].
  cbn [Js.mapChars list_ascii_of_string]. intros [Hc|Hin]; [|by apply IH].
  destruct (Ascii.eqb_spec c "\"%char) as [->|Hne]; [done|]. congruence.
Qed.

(** X12. The canonical path a walk returns contains no backslash. *)
Theorem canonical_path_has_no_backslash (depth : nat) (name : string)
    (isRoot : bool) (st : Store) (p : string) (st' : Store) :
  parseObject depth name isRoot st = Some (Some p, st') ->
  ~ occursIn "\"%char p.
Proof.
  intros H.
  destruct (parseObject_returns_path _ _ _ _ _ _ H)
    as (_ & _ & prefix & fileName & _ & _ & _ & _ & _ & -> & _).
  apply slashes_no_backslash.
Qed.

(** ** A model without references *)

Lemma scanLine_plain recurse i raw processed st :
  placementOf raw = None ->
  exists st',
    scanLine recurse i raw processed st
    = Some (processed +:+
            (if Js.startsWith "0 FILE " (stripped raw) && (i =? 0) then ""
             else stripped raw +:+ Js.nl), st') /\
    objectsPaths st' = objectsPaths st /\
    objectsContents st' = objectsContents st /\
    listOfNotFound st' = listOfNotFound st /\
    effects st' = effects st.
Proof.
  intros Hraw.
  destruct (Js.startsWith "0 FILE " (stripped raw)) eqn:Hmarker.
  - unfold scanLine. fold (stripped raw). rewrite Hmarker. cbn [andb].
    destruct (i =? 0); [exists st; by rewrite append_empty|].
    eexists. split; [done|]. by destruct (Js.truthy _); [destruct (mapped _ _)|].
  - exists st. by rewrite (scanLine_other _ _ _ _ _ Hmarker Hraw).
Qed.

Lemma scanLines_plain recurse lines : forall i processed st,
  Forall (fun raw => placementOf raw = None) lines ->
  exists st',
    scanLines recurse i lines processed st
    = Some (processed +:+ rewriteLines i lines, st') /\
    objectsPaths st' = objectsPaths st /\
    objectsContents st' = objectsContents st /\
    listOfNotFound st' = listOfNotFound st /\
    effects st' = effects st.
Proof.
  induction lines as [|raw rest IH]; intros i processed st Hall.
  - exists st. rewrite scanLines_done. cbn [rewriteLines].
    by rewrite append_empty.
  - apply Forall_cons in Hall as [Hraw Hrest]. rewrite scanLines_step.
    destruct (scanLine_plain recurse i raw processed st Hraw)
      as (st1 & -> & Hp1 & Hc1 & Hn1 & He1).
    destruct (IH (S i) (processed +:+
                (if Js.startsWith "0 FILE " (stripped raw) && (i =? 0)
                 then "" else stripped raw +:+ Js.nl)) st1 Hrest)
      as (st' & -> & Hp & Hc & Hn & He).
    exists st'. cbn [rewriteLines]. rewrite append_assoc.
    by rewrite Hp, Hc, Hn, He.
Qed.

(** X13. A model that can be read, is not empty and has no placement line
    with a reference is packed, whatever the depth allowed, as the
    materials content, a newline, its own lines rewritten, and a newline;
    the pack reads the materials file and the model, and nothing else. *)
Theorem model_without_references_is_packed (depth : nat)
    (fileName materialsContent content : string) :
  let materialsFilePath := Path.join [ldrawPath; materialsFileName] in
  present materialsFilePath = true ->
  disk materialsFilePath = Some materialsContent ->
  disk fileName = Some content ->
  Js.truthy content = true ->
  Forall (fun raw => placementOf raw = None) (linesOf content) ->
  packLDrawModel (S depth) fileName
  = Some (Packed (materialsContent +:+ Js.nl +:+
                  rewriteLines 0 (linesOf content) +:+ Js.nl),
          [Read materialsFilePath; Read fileName]).
Proof.
  intros mat Hpresent Hmat Hdisk Htruthy Hplain.
  destruct (scanLines_plain (fun n => parseObject depth n false)
              (linesOf content) 0 ""
              (logEffect (Read fileName) (logEffect (Read mat) emptyStore))
              Hplain) as (st2 & Hscan & Hp & Hc & Hn & He).
  assert (parseObject (S depth) fileName true (logEffect (Read mat) emptyStore)
          = Some (Some (objectPathOf "" fileName),
                  pushObject (objectPathOf "" fileName)
                    ("" +:+ rewriteLines 0 (linesOf content)) st2)) as Hwalk.
  { rewrite parseObject_step, (resolveContent_direct _ _ _ Hdisk Htruthy).
    unfold rewriteObject. rewrite Htruthy. cbn [negb].
    fold (linesOf content). by rewrite Hscan. }
  rewrite (packLDrawModel_walked _ _ _ _ _ Hpresent Hmat Hwalk).
  unfold stillMissing.
  cbn [pushObject objectsPaths objectsContents listOfNotFound pathMap effects].
  rewrite Hn, Hp, Hc, He. cbn. by rewrite !append_assoc.
Qed.

(** ** Walks that return *)

Lemma foundContent_disk name content :
  foundContent name = Some content -> exists path, disk path = Some content.
Proof.
  unfold foundContent. destruct (firstHit (candidates name)); [by eexists|].
  destruct (firstHit (candidates (Js.toLowerCase name))); [by eexists|done].
Qed.

Lemma resolveContent_found name st :
  exists prefix fileName st',
    resolveContent name false st = (foundContent name, prefix, fileName, st').
Proof.
  rewrite resolveContent_nonroot, searchLoop_spec. cbv zeta.
  unfold foundContent.
  destruct (firstHit (candidates name)); [by do 3 eexists|].
  destruct (firstHit (candidates (Js.toLowerCase name))); by do 3 eexists.
Qed.

Lemma resolveContent_root name st :
  exists content0 prefix fileName st',
    resolveContent name true st = (content0, prefix, fileName, st') /\
    (Js.truthyOpt content0 = false \/ content0 = rootContent name).
Proof.
  unfold resolveContent, readFileSync, rootContent.
  destruct (Js.truthyOpt (disk name)) eqn:Ht; cbn [negb].
  - do 4 eexists. split; [done|]. by right.
  - rewrite searchLoop_spec. cbv zeta. unfold foundContent.
    destruct (firstHit (candidates name)); [do 4 eexists; split; [done|by right]|].
    destruct (firstHit (candidates (Js.toLowerCase name)));
      do 4 eexists; (split; [done|]); [by right|by left].
Qed.

Lemma scanLine_returns recurse i raw processed st :
  (forall m st, placementOf raw = Some m -> is_Some (recurse m st)) ->
  is_Some (scanLine recurse i raw processed st).
Proof.
  intros Hrec. destruct (placementOf raw) as [m|] eqn:Hraw.
  - rewrite (scanLine_placement _ _ _ _ _ _ Hraw).
    destruct (Js.truthy m && negb _); [|done].
    destruct (Hrec m st eq_refl) as [[path st1] ->]. done.
  - destruct (scanLine_plain recurse i raw processed st Hraw) as (st' & -> & _).
    done.
Qed.

Lemma scanLines_returns recurse lines : forall i processed st,
  (forall raw m st,
     raw ∈ lines -> placementOf raw = Some m -> is_Some (recurse m st)) ->
  is_Some (scanLines recurse i lines processed st).
Proof.
  induction lines as [|raw rest IH]; intros i processed st Hrec; [done|].
  rewrite scanLines_step.
  destruct (scanLine_returns recurse i raw processed st) as [[p1 st1] ->].
  - intros m s. apply Hrec. by left.
  - apply IH. intros r m s Hin. apply Hrec. by right.
Qed.

Lemma rewriteObject_returns recurse isRoot content0 prefix fileName st :
  (forall content raw m st,
     content0 = Some content -> Js.truthy content = true ->
     raw ∈ linesOf content -> placementOf raw = Some m ->
     is_Some (recurse m st)) ->
  is_Some (rewriteObject recurse isRoot content0 prefix fileName st).
Proof.
  intros Hrec. unfold rewriteObject. destruct content0 as [content|]; [|done].
  destruct (Js.truthy content) eqn:Ht; cbn [negb]; [|done].
  fold (linesOf content).
  destruct (scanLines_returns recurse (linesOf content) 0
              (if isRoot then ""
               else "0 FILE " +:+ objectPathOf prefix fileName +:+ Js.nl) st)
    as [[doc st2] ->]; [|done].
  intros raw m s. by apply Hrec.
Qed.

Section Ranked.

(** A rank on names that strictly decreases from a name to every
    reference in the content the library search finds for it. *)
Variable rank : string -> nat.
Hypothesis rank_decreases : forall name content raw m,
  foundContent name = Some content ->
  raw ∈ linesOf content -> placementOf raw = Some m ->
  rank m < rank name.

Lemma parseObject_returns_ranked depth : forall name st,
  rank name <= depth -> is_Some (parseObject (S depth) name false st).
Proof.
  induction depth as [depth IH] using lt_wf_ind. intros name st Hrank.
  rewrite parseObject_step.
  destruct (resolveContent_found name st) as (prefix & fileName & st1 & ->).
  apply rewriteObject_returns. intros content raw m s Hc _ Hraw Hm.
  pose proof (rank_decreases _ _ _ _ Hc Hraw Hm) as Hlt.
  destruct depth as [|depth]; [lia|]. apply IH; lia.
Qed.

(** The walk of a root whose references have a rank below [depth]. *)
Lemma parseObject_root_returns depth fileName st :
  (forall content raw m,
     rootContent fileName = Some content ->
     raw ∈ linesOf content -> placementOf raw = Some m -> rank m < depth) ->
  is_Some (parseObject (S depth) fileName true st).
Proof.
  intros Hroot. rewrite parseObject_step.
  destruct (resolveContent_root fileName st)
    as (content0 & prefix & name & st1 & -> & Hc0).
  apply rewriteObject_returns. intros content raw m s Hc Ht Hraw Hm.
  destruct Hc0 as [Hfalsy|Hc0];
    [rewrite Hc in Hfalsy; cbn [Js.truthyOpt] in Hfalsy; congruence|].
  rewrite Hc in Hc0. pose proof (Hroot _ _ _ (eq_sym Hc0) Hraw Hm) as Hlt.
  destruct depth as [|depth]; [lia|].
  apply parseObject_returns_ranked. lia.
Qed.

End Ranked.

(** X14. When the references of the library are well founded (some rank
    on names decreases from every name to each reference of the content
    found for it) and those of the root content have a rank below [depth],
    the pack with room for [depth + 1] nested calls ends: it returns an
    artifact or throws one of its errors, the stack is not exhausted. *)
Theorem pack_ends_when_references_are_well_founded
    (rank : string -> nat) (depth : nat) (fileName : string) :
  (forall name content raw m,
     foundContent name = Some content ->
     raw ∈ linesOf content -> placementOf raw = Some m ->
     rank m < rank name) ->
  (forall content raw m,
     rootContent fileName = Some content ->
     raw ∈ linesOf content -> placementOf raw = Some m -> rank m < depth) ->
  exists o log, packLDrawModel (S depth) fileName = Some (o, log).
Proof.
  intros Hrank Hroot. unfold packLDrawModel.
  destruct (negb (present _)); [by do 2 eexists|].
  destruct (disk (Path.join _)) as [m|]; [|by do 2 eexists].
  destruct (parseObject_root_returns rank Hrank depth fileName
              (logEffect (Read (Path.join [ldrawPath; materialsFileName]))
                 emptyStore) Hroot) as [[r st] ->].
  destruct (checkNotFound _ _ _ _) as [[|] console]; by do 2 eexists.
Qed.

(** ** What a pack looks for *)

Section SearchesOfWalkedNames.

(** A set of names closed under the references of the contents found. *)
Variable P : string -> Prop.
Hypothesis P_closed : forall parent content raw name,
  P parent -> foundContent parent = Some content ->
  raw ∈ linesOf content -> placementOf raw = Some name -> P name.

Lemma candidate_reads name paths :
  P name ->
  (forall path, path ∈ paths ->
     path ∈ candidates name ++ candidates (Js.toLowerCase name)) ->
  Forall (searchEffect P) (map Read (attempted paths)).
Proof.
  intros HP Hsub. apply Forall_forall.
  intros e (path & -> & Hin)%list_elem_of_fmap. exists name.
  split; [done|]. by apply Hsub, attempted_subset.
Qed.

Lemma searchLoop_searches name content st :
  P name ->
  appended effects (searchEffect P) st
    (snd (searchLoop [0; 1] name content "" name st)).
Proof.
  intros HP. rewrite searchLoop_spec. cbv zeta.
  assert (Forall (searchEffect P) (map Read (attempted (candidates name))))
    as H1 by (apply (candidate_reads name); [done|];
              intros path Hin; apply elem_of_app; by left).
  assert (Forall (searchEffect P)
            (map Read (attempted (candidates (Js.toLowerCase name)))))
    as H2 by (apply (candidate_reads name); [done|];
              intros path Hin; apply elem_of_app; by right).
  destruct (firstHit (candidates name)).
  - by eexists.
  - destruct (firstHit (candidates (Js.toLowerCase name))).
    + cbn [snd]. rewrite logAll_logAll. eexists. split; [done|].
      by apply Forall_app.
    + cbn [snd]. rewrite logAll_logAll, pushNotFound_logAll. eexists.
      split; [done|]. apply Forall_app. split; [by apply Forall_app|].
      by repeat constructor.
Qed.

Lemma scanLine_searches depth i raw processed st processed' st' :
  (forall name st r st',
     P name -> parseObject depth name false st = Some (r, st') ->
     appended effects (searchEffect P) st st') ->
  (forall name, placementOf raw = Some name -> P name) ->
  scanLine (fun n => parseObject depth n false) i raw processed st
    = Some (processed', st') ->
  appended effects (searchEffect P) st st'.
Proof.
  intros IH Hraw H. destruct (placementOf raw) as [name|] eqn:E.
  - rewrite (scanLine_placement _ _ _ _ _ _ E) in H.
    destruct (Js.truthy name && negb _); [|simplify_eq; apply appended_refl].
    destruct (parseObject depth name false st) as [[path st1]|] eqn:Hwalk;
      [|done].
    apply IH in Hwalk; [|by apply Hraw]. injection H as _ <-.
    by destruct (Js.truthyOpt path).
  - destruct (scanLine_plain (fun n => parseObject depth n false) i raw
                processed st E) as (st1 & H1 & _ & _ & _ & He).
    rewrite H1 in H. injection H as _ <-. by apply appended_same.
Qed.

Lemma scanLines_searches depth lines : forall i processed st processed' st',
  (forall name st r st',
     P name -> parseObject depth name false st = Some (r, st') ->
     appended effects (searchEffect P) st st') ->
  (forall raw name, raw ∈ lines -> placementOf raw = Some name -> P name) ->
  scanLines (fun n => parseObject depth n false) i lines processed st
    = Some (processed', st') ->
  appended effects (searchEffect P) st st'.
Proof.
  induction lines as [|raw rest IHl];
    intros i processed st processed' st' IH Hlines H;
    [rewrite scanLines_done in H|rewrite scanLines_step in H];
    [simplify_eq; apply appended_refl|].
  destruct (scanLine _ _ _ _ _) as [[p1 st1]|] eqn:H1; [|done].
  eapply appended_trans.
  - eapply scanLine_searches; [exact IH| |exact H1].
    intros name. apply Hlines. by left.
  - eapply IHl; [exact IH| |exact H]. intros r name Hin.
    apply Hlines. by right.
Qed.

(** A walk that is not the root's reads candidates of names of [P] only,
    when its own name is one of them. *)
Lemma parseObject_searches depth : forall name st r st',
  P name -> parseObject depth name false st = Some (r, st') ->
  appended effects (searchEffect P) st st'.
Proof.
  induction depth as [|depth IH]; [done|]. intros name st r st' HP H.
  destruct (parseObject_inv _ _ _ _ _ _ H)
    as (depth' & content0 & prefix & fileName & st1 & [= <-] & H1
        & Hcases).
  pose proof (searchLoop_searches name None st HP) as Hres.
  rewrite <- resolveContent_nonroot, H1 in Hres. cbn [snd] in Hres.
  destruct Hcases as [(_ & -> & _)|(content & st2 & -> & _ & _ & H2 & ->)];
    [done|].
  destruct (resolveContent_found name st) as (p' & f' & s' & Hfound).
  rewrite H1 in Hfound. injection Hfound as Hfound _ _ _.
  eapply appended_trans; [exact Hres|].
  apply (appended_trans _ _ _ st2); [|by apply appended_same].
  eapply scanLines_searches; [exact IH| |exact H2].
  intros raw m Hin Hm. by eapply P_closed.
Qed.

End SearchesOfWalkedNames.

Lemma searchEffect_weaken (P Q : string -> Prop) e :
  (forall name, P name -> Q name) -> searchEffect P e -> searchEffect Q e.
Proof.
  intros HPQ. destruct e as [path|name|name]; [|done..].
  intros (name & HP & Hin). exists name. auto.
Qed.

Lemma walkedFrom_closed root parent content raw name :
  walkedFrom root parent -> foundContent parent = Some content ->
  raw ∈ linesOf content -> placementOf raw = Some name ->
  walkedFrom root name.
Proof. apply walked_by_reference. Qed.

Lemma resolveContent_root_searches root st :
  appended effects
    (fun e =>
       e = Read root \/
       searchEffect (fun name => name = root \/ walkedFrom root name) e)
    st (snd (resolveContent root true st)).
Proof.
  unfold resolveContent, readFileSync.
  assert (appended effects
            (fun e =>
               e = Read root \/
               searchEffect (fun name => name = root \/ walkedFrom root name) e)
            st (logEffect (Read root) st)) as Hread.
  { exists [Read root]. split; [done|]. constructor; [by left|constructor]. }
  destruct (negb _); [|exact Hread].
  eapply appended_trans; [exact Hread|].
  eapply appended_weaken;
    [|apply (searchLoop_searches (fun name => name = root)); reflexivity].
  intros e He. right. eapply searchEffect_weaken; [|exact He].
  intros name ->. by left.
Qed.

(** The reads of the walk of a root: the path given, the candidates of the
    root when it is searched in the library, and the candidates of the
    names walked from it. *)
Lemma parseObject_root_searches depth root st r st' :
  parseObject depth root true st = Some (r, st') ->
  appended effects
    (fun e =>
       e = Read root \/
       searchEffect (fun name => name = root \/ walkedFrom root name) e)
    st st'.
Proof.
  intros H.
  destruct (parseObject_inv _ _ _ _ _ _ H)
    as (depth' & content0 & prefix & fileName & st1 & -> & H1 & Hcases).
  pose proof (resolveContent_root_searches root st) as Hres.
  rewrite H1 in Hres. cbn [snd] in Hres.
  destruct Hcases as [(_ & -> & _)|(content & st2 & -> & Ht & _ & H2 & ->)];
    [done|].
  assert (rootContent root = Some content) as Hroot.
  { destruct (resolveContent_root root st)
      as (c0 & p0 & f0 & s0 & Heq & [Hfalsy|Hc0]);
      rewrite H1 in Heq; injection Heq as <- _ _ _; [|done].
    cbn [Js.truthyOpt] in Hfalsy. congruence. }
  eapply appended_trans; [exact Hres|].
  apply (appended_trans _ _ _ st2); [|by apply appended_same].
  eapply appended_weaken;
    [|eapply (scanLines_searches (walkedFrom root));
      [apply (parseObject_searches (walkedFrom root) (walkedFrom_closed root))
      | |exact H2]].
  - intros e He. right. eapply searchEffect_weaken; [|exact He].
    intros name Hn. by right.
  - intros raw name Hin Hname. by eapply walked_by_root.
Qed.

(** X11. A pack only looks for what the model refers to: every read it
    makes is of the materials file, of the path it is given, or of one of
    the eight candidates (four as written, four lowercased) of the root
    name or of a name that a placement line refers to in the content of
    the root or, in turn, in the content found for such a name. *)
Theorem pack_reads_are_confined (depth : nat) (fileName : string)
    (o : outcome) (log : list event) :
  packLDrawModel depth fileName = Some (o, log) ->
  forall path,
    Read path ∈ log ->
    path = Path.join [ldrawPath; materialsFileName] \/
    path = fileName \/
    exists name,
      (name = fileName \/ walkedFrom fileName name) /\
      path ∈ candidates name ++ candidates (Js.toLowerCase name).
Proof.
  intros Hpack path Hin.
  destruct (packLDrawModel_log _ _ _ _ Hpack)
    as [->|[->|(r & st & ev & Hw & _ & _ & ->)]].
  - by apply elem_of_nil in Hin.
  - apply list_elem_of_singleton in Hin as [= ->]. by left.
  - destruct (parseObject_root_searches _ _ _ _ _ Hw) as (ev' & He & Hev).
    cbn [logEffect emptyStore effects app] in He. rewrite He in Hin.
    apply elem_of_app in Hin as [Hin|Hin].
    + apply elem_of_cons in Hin as [[= ->]|Hin]; [by left|].
      rewrite Forall_forall in Hev.
      destruct (Hev _ Hin) as [[= ->]|Hs]; [right; by left|].
      right. right. exact Hs.
    + by apply list_elem_of_fmap in Hin as (n & [=] & _).
Qed.

End Packer.

(** ** The properties on the example libraries *)

Import Scenario.

(** The round trip: the artifact is the materials, a newline, the root
    document, the document of [brick.dat], a newline. *)
Lemma packed_artifact_layout_witness :
  let packed :=
    materials +:+ Js.nl +:+
    (placement "brick.dat" +:+ Js.nl +:+ Js.nl) +:+
    ("0 FILE parts/brick.dat" +:+ Js.nl +:+ "0 Brick 2 x 4" +:+ Js.nl +:+ Js.nl)
    +:+ Js.nl in
  exists log,
    packLDrawModel HOME roundTrip (present roundTrip) readError 2
      "/srv/temp/model.ldr" = Some (Packed packed, log) /\
    exists materialsContent r st,
      roundTrip "/home/u/ldraw/LDConfig.ldr" = Some materialsContent /\
      parseObject HOME roundTrip 2 "/srv/temp/model.ldr" true
        (logEffect (Read "/home/u/ldraw/LDConfig.ldr") emptyStore)
        = Some (r, st) /\
      packed = materialsContent +:+ Js.nl +:+
               concatAll (rev (objectsContents st)) +:+ Js.nl /\
      r = Some "/srv/temp/model.ldr" /\
      last (objectsPaths st) = Some "/srv/temp/model.ldr" /\
      last (objectsContents st)
        = Some (placement "brick.dat" +:+ Js.nl +:+ Js.nl).
Proof.
  intros packed. eexists.
  assert (packLDrawModel HOME roundTrip (present roundTrip) readError 2
            "/srv/temp/model.ldr" = Some (Packed packed, _)) as Hpack
    by (vm_compute; reflexivity).
  split; [exact Hpack|].
  destruct (packed_artifact_layout HOME roundTrip (present roundTrip) readError
              2 "/srv/temp/model.ldr" packed _ Hpack)
    as (m & r & st & Hm & Hw & _ & Hlayout & _).
  exists m, r, st. split; [exact Hm|]. split; [exact Hw|].
  split; [exact Hlayout|].
  vm_compute in Hw. injection Hw as <- <-. vm_compute. auto.
Defined.

(** The same pack: the artifact is not the materials followed at once by
    the documents. And a pack whose root is found as an empty file
    succeeds with no document at all, the root's included. *)
Lemma packed_artifact_as_stated_refuted :
  (exists packed log r st,
     packLDrawModel HOME roundTrip (present roundTrip) readError 2
       "/srv/temp/model.ldr" = Some (Packed packed, log) /\
     parseObject HOME roundTrip 2 "/srv/temp/model.ldr" true
       (logEffect (Read "/home/u/ldraw/LDConfig.ldr") emptyStore)
       = Some (r, st) /\
     packed <> materials +:+ concatAll (rev (objectsContents st)) +:+ Js.nl) /\
  (exists log st,
     packLDrawModel HOME emptyPart (present emptyPart) readError 1 "empty.dat"
       = Some (Packed (materials +:+ Js.nl +:+ Js.nl), log) /\
     parseObject HOME emptyPart 1 "empty.dat" true
       (logEffect (Read "/home/u/ldraw/LDConfig.ldr") emptyStore)
       = Some (None, st) /\
     objectsContents st = []).
Proof.
  split.
  - do 4 eexists. split; [vm_compute; reflexivity|].
    split; [vm_compute; reflexivity|]. vm_compute. discriminate.
  - do 2 eexists. split; [vm_compute; reflexivity|].
    split; vm_compute; reflexivity.
Qed.

(** A hit under [parts/] yields the prefix [parts/]. *)
Lemma canonical_prefix_after_hit_witness :
  exists st',
    parseObject HOME roundTrip 1 "brick.dat" false emptyStore
      = Some (Some "parts/brick.dat", st') /\
    canonicalPath HOME roundTrip prefixAfterHit "brick.dat"
      = Some "parts/brick.dat".
Proof.
  eexists.
  assert (parseObject HOME roundTrip 1 "brick.dat" false emptyStore
          = Some (Some "parts/brick.dat", _)) as Hwalk
    by (vm_compute; reflexivity).
  split; [exact Hwalk|].
  refine (canonical_prefix_after_hit HOME roundTrip 1 "brick.dat" false
            emptyStore "parts/brick.dat" _ _ Hwalk).
  discriminate.
Defined.

(** [48/stud.dat] is read at the first candidate, the one without a prefix,
    and the canonical path returned has the prefix [p/]. *)
Lemma unprefixed_hit_gets_prefix :
  firstHit flatLibrary (candidates HOME "48/stud.dat") = Some 0 /\
  prefixOfCandidate 0 = "" /\
  canonicalPath HOME flatLibrary (fun k _ => prefixOfCandidate k) "48/stud.dat"
    = Some "48/stud.dat" /\
  exists st',
    parseObject HOME flatLibrary 1 "48/stud.dat" false emptyStore
      = Some (Some "p/48/stud.dat", st').
Proof.
  split; [vm_compute; reflexivity|]. split; [reflexivity|].
  split; [vm_compute; reflexivity|]. eexists. vm_compute. reflexivity.
Qed.

(** No materials: the pack throws before any walk. Two references missing:
    it throws after the walk. The round trip: it returns an artifact. *)
Lemma pack_failure_conditions_witness :
  (exists message log,
     packLDrawModel HOME noLibrary (present noLibrary) readError 2
       "/srv/temp/model.ldr" = Some (Thrown message, log) /\
     forall e, e ∈ log -> e = Read "/home/u/ldraw/LDConfig.ldr") /\
  (exists message log,
     packLDrawModel HOME twoMissing (present twoMissing) readError 2
       "/srv/temp/model.ldr" = Some (Thrown message, log)) /\
  (exists packedContent log,
     packLDrawModel HOME roundTrip (present roundTrip) readError 2
       "/srv/temp/model.ldr" = Some (Packed packedContent, log)).
Proof.
  split; [|split].
  - apply (proj1 (pack_failure_conditions HOME noLibrary (present noLibrary)
                    readError 2 "/srv/temp/model.ldr")).
    left. reflexivity.
  - edestruct (proj2 (pack_failure_conditions HOME twoMissing
                        (present twoMissing) readError 2 "/srv/temp/model.ldr"))
      as [[Hthrows _] _];
      [reflexivity|reflexivity|vm_compute; reflexivity|].
    apply Hthrows. exists "X.dat". split; [|vm_compute; reflexivity].
    cbn [listOfNotFound]. apply list_elem_of_here.
  - edestruct (proj2 (pack_failure_conditions HOME roundTrip
                        (present roundTrip) readError 2 "/srv/temp/model.ldr"))
      as [_ [Hpacked _]];
      [reflexivity|reflexivity|vm_compute; reflexivity|].
    apply Hpacked. intros (name & Hin & _). cbn [listOfNotFound] in Hin.
    by apply elem_of_nil in Hin.
Defined.

(** Two references missing: the response carries the fixed message and the
    two names go to the console. *)
Lemma missing_references_failure_witness :
  exists r st o,
    parseObject HOME twoMissing 2 "/srv/temp/model.ldr" true
      (logEffect (Read "/home/u/ldraw/LDConfig.ldr") emptyStore)
      = Some (r, st) /\
    stillMissing st = ["X.dat"; "Y.dat"] /\
    packLDrawModel HOME twoMissing (present twoMissing) readError 2
      "/srv/temp/model.ldr"
      = Some (o, effects st ++ [ConsoleMissing "X.dat"; ConsoleMissing "Y.dat"]) /\
    respond "model.ldr" o
      = Failure 500 "Failed to pack model"
          "Some files were not found during packing".
Proof.
  do 2 eexists.
  assert (parseObject HOME twoMissing 2 "/srv/temp/model.ldr" true
            (logEffect (Read "/home/u/ldraw/LDConfig.ldr") emptyStore)
          = Some (_, _)) as Hwalk by (vm_compute; reflexivity).
  destruct (missing_references_failure HOME twoMissing (present twoMissing)
              readError 2 "/srv/temp/model.ldr" "model.ldr" materials _ _
              eq_refl eq_refl Hwalk) as (o & Hpack & Hresp);
    [vm_compute; discriminate|].
  exists o. split; [exact Hwalk|]. split; [vm_compute; reflexivity|].
  split; [exact Hpack|exact Hresp].
Defined.

(** The same failure: neither missing name occurs in what the caller
    receives. *)
Lemma failure_details_omit_missing_names :
  exists message log r st,
    packLDrawModel HOME twoMissing (present twoMissing) readError 2
      "/srv/temp/model.ldr" = Some (Thrown message, log) /\
    parseObject HOME twoMissing 2 "/srv/temp/model.ldr" true
      (logEffect (Read "/home/u/ldraw/LDConfig.ldr") emptyStore)
      = Some (r, st) /\
    stillMissing st = ["X.dat"; "Y.dat"] /\
    respond "model.ldr" (Thrown message)
      = Failure 500 "Failed to pack model" message /\
    includes "X.dat" message = false /\
    includes "Y.dat" message = false.
Proof.
  do 4 eexists. split; [vm_compute; reflexivity|].
  split; [vm_compute; reflexivity|].
  repeat split; vm_compute; reflexivity.
Qed.

(** A ['0 FILE '] line after the first one is registered and kept, and the
    content that begins with one is scanned from its second line. *)
Lemma self_declaration_line_witness :
  Js.startsWith "0 FILE " (stripped "  0 FILE inner.ldr") = true /\
  scanLine (fun _ _ => None) 1 "  0 FILE inner.ldr" "" emptyStore
    = Some ("0 FILE inner.ldr" +:+ Js.nl,
            setPath "inner.ldr" "inner.ldr" emptyStore) /\
  rewriteObject (fun _ _ => None) true
    (Some ("  0 FILE inner.ldr" +:+ Js.nl +:+ "0 Inner part"))
    "" "/srv/temp/model.ldr" emptyStore
    = Some (Some "/srv/temp/model.ldr",
            pushObject "/srv/temp/model.ldr" ("0 Inner part" +:+ Js.nl)
              emptyStore).
Proof.
  split; [reflexivity|].
  destruct (self_declaration_line (fun _ _ => None) "  0 FILE inner.ldr"
              emptyStore eq_refl) as [Hfirst Hlater].
  split.
  - rewrite (Hlater 1 "") by lia. vm_compute. reflexivity.
  - rewrite (Hfirst true ("  0 FILE inner.ldr" +:+ Js.nl +:+ "0 Inner part")
               "" "/srv/temp/model.ldr" ["0 Inner part"] eq_refl eq_refl).
    vm_compute. reflexivity.
Defined.

(** The first line of [sub.ldr], which is not a root, is a ['0 FILE '] line:
    it is neither kept in the document nor registered. *)
Lemma first_line_of_library_file_dropped :
  exists st',
    parseObject HOME declaredFirst 1 "sub.ldr" false emptyStore
      = Some (Some "models/sub.ldr", st') /\
    objectsContents st'
      = ["0 FILE models/sub.ldr" +:+ Js.nl +:+ "0 Inner part" +:+ Js.nl] /\
    pathMap st' !! "inner.ldr" = None.
Proof.
  eexists. split; [vm_compute; reflexivity|].
  split; vm_compute; reflexivity.
Qed.

(** A placement line with four fields after the marker. *)
Lemma short_placement_line_passes_witness :
  Js.startsWith "1 " (stripped "	1 16 0 0 0") = true /\
  length (fieldsAfterMarker "	1 16 0 0 0") < 14 /\
  scanLine (fun _ _ => None) 3 "	1 16 0 0 0" "" emptyStore
    = Some ("1 16 0 0 0" +:+ Js.nl, emptyStore).
Proof.
  split; [reflexivity|]. split; [vm_compute; lia|].
  apply short_placement_line_passes; [reflexivity|vm_compute; lia].
Defined.


(** [X.dat] is nowhere: eight reads, then one push. *)
Lemma unresolved_walk_returns_null_witness :
  (forall path,
     path ∈ candidates HOME "X.dat" ++ candidates HOME (Js.toLowerCase "X.dat") ->
     twoMissing path = None) /\
  parseObject HOME twoMissing 1 "X.dat" false emptyStore
  = Some (None,
          mkStore [] [] ∅ ["X.dat"]
            [ Read "/home/u/ldraw/X.dat"; Read "/home/u/ldraw/parts/X.dat";
              Read "/home/u/ldraw/p/X.dat"; Read "/home/u/ldraw/models/X.dat";
              Read "/home/u/ldraw/x.dat"; Read "/home/u/ldraw/parts/x.dat";
              Read "/home/u/ldraw/p/x.dat"; Read "/home/u/ldraw/models/x.dat";
              NotFoundPush "X.dat" ]).
Proof.
  assert (forall path,
            path ∈ candidates HOME "X.dat" ++
                   candidates HOME (Js.toLowerCase "X.dat") ->
            twoMissing path = None) as Hmiss.
  { intros path Hin. vm_compute in Hin.
    repeat (apply elem_of_cons in Hin as [->|Hin]; [reflexivity|]).
    by apply elem_of_nil in Hin. }
  split; [exact Hmiss|].
  rewrite (unresolved_walk_returns_null HOME twoMissing 0 "X.dat" false
             emptyStore Hmiss) by discriminate.
  vm_compute. reflexivity.
Defined.

(** [X.dat] placed twice: it is on the Not-found list twice. *)
Lemma unresolved_reference_repeats_witness :
  exists processed' st',
    scanLines (fun n => parseObject HOME twoMissing 1 n false) 0
      [placement "X.dat"; placement "X.dat"] "" emptyStore
      = Some (processed', st') /\
    pathMap st' = ∅ /\
    listOfNotFound st' = ["X.dat"; "X.dat"] /\
    length (effects st') = 18.
Proof.
  destruct (unresolved_reference_repeats HOME twoMissing 0 "X.dat"
              [placement "X.dat"; placement "X.dat"] 0 "" emptyStore)
    as (processed' & st' & Hscan & Hmap & Hlist & Heffects).
  - repeat (constructor; [vm_compute; reflexivity|]). constructor.
  - reflexivity.
  - reflexivity.
  - intros path Hin. vm_compute in Hin.
    repeat (apply elem_of_cons in Hin as [->|Hin]; [reflexivity|]).
    by apply elem_of_nil in Hin.
  - exists processed', st'. split; [exact Hscan|]. split; [exact Hmap|].
    split; [exact Hlist|]. rewrite Heffects. reflexivity.
Defined.

(** ** The string and path primitives on examples *)

Example trim_example : Js.trim "  a b 	" = "a b".
Proof. reflexivity. Qed.

Example splitWhiteSpace_example :
  Js.splitWhiteSpace "1 16  0" = ["1"; "16"; "0"].
Proof. reflexivity. Qed.

Example splitWhiteSpace_edges : Js.splitWhiteSpace " a " = [""; "a"; ""].
Proof. reflexivity. Qed.

Example toLowerCase_example : Js.toLowerCase "S/Brick.DAT" = "s/brick.dat".
Proof. reflexivity. Qed.

Example replaceCRLF_example :
  Js.replaceCRLF (String Js.CR (String Js.LF "a")) = String Js.LF "a".
Proof. reflexivity. Qed.

Example join_candidate :
  Path.join ["/home/u/ldraw/"; "parts/"; "s/x.dat"]
  = "/home/u/ldraw/parts/s/x.dat".
Proof. reflexivity. Qed.

Example join_empty_prefix : Path.join [""; "a.dat"] = "a.dat".
Proof. reflexivity. Qed.

Example join_normalizes : Path.join ["p/"; "../a//b/./c.dat"] = "a/b/c.dat".
Proof. reflexivity. Qed.

Example join_above_root : Path.join [""; "../x"] = "../x".
Proof. reflexivity. Qed.

Example join_nothing : Path.join [""; ""] = ".".
Proof. reflexivity. Qed.

Example referenceOf_example :
  referenceOf (placement "my part.dat") = Some "my part.dat".
Proof. reflexivity. Qed.

Example inherited_example : mapped ∅ "constructor" = true.
Proof. reflexivity. Qed.

(** A name in upper case is found by the lowercased pass, after the four
    reads of the first pass have failed. *)
Example case_retry :
  parseObject Scenario.HOME roundTrip 1 "BRICK.DAT" false emptyStore
  = Some (Some "parts/brick.dat",
          mkStore ["parts/brick.dat"]
            ["0 FILE parts/brick.dat" +:+ Js.nl +:+ "0 Brick 2 x 4" +:+ Js.nl
             +:+ Js.nl]
            ∅ []
            [ Read "/home/u/ldraw/BRICK.DAT";
              Read "/home/u/ldraw/parts/BRICK.DAT";
              Read "/home/u/ldraw/p/BRICK.DAT";
              Read "/home/u/ldraw/models/BRICK.DAT";
              Read "/home/u/ldraw/brick.dat";
              Read "/home/u/ldraw/parts/brick.dat" ]).
Proof. vm_compute. reflexivity. Qed.

(** ** The further properties on the example libraries *)

(** Three lines, the first a ['0 FILE '] line, the last a placement. *)
Lemma scan_output_is_the_lines_witness :
  exists st',
    scanLines (fun n => parseObject HOME roundTrip 1 n false) 0
      ["0 FILE main.ldr"; "  0 Untitled"; placement "brick.dat"] ""
      emptyStore
    = Some ("0 Untitled" +:+ Js.nl +:+ placement "brick.dat" +:+ Js.nl, st') /\
    "0 Untitled" +:+ Js.nl +:+ placement "brick.dat" +:+ Js.nl
    = "" +:+ rewriteLines 0
               ["0 FILE main.ldr"; "  0 Untitled"; placement "brick.dat"].
Proof.
  eexists.
  assert (scanLines (fun n => parseObject HOME roundTrip 1 n false) 0
            ["0 FILE main.ldr"; "  0 Untitled"; placement "brick.dat"] ""
            emptyStore
          = Some ("0 Untitled" +:+ Js.nl +:+ placement "brick.dat" +:+ Js.nl, _))
    as Hscan by (vm_compute; reflexivity).
  split; [exact Hscan|].
  exact (scan_output_is_the_lines _ _ _ _ _ _ _ Hscan).
Defined.

(** [BRICK.DAT] is embedded from [parts/brick.dat], found by the
    lowercased pass. *)
Lemma embedded_document_witness :
  exists st',
    parseObject HOME roundTrip 1 "BRICK.DAT" false emptyStore
      = Some (Some "parts/brick.dat", st') /\
    exists fileName k content,
      (fileName = "BRICK.DAT" \/
       (firstHit roundTrip (candidates HOME "BRICK.DAT") = None /\
        fileName = Js.toLowerCase "BRICK.DAT")) /\
      firstHit roundTrip (candidates HOME fileName) = Some k /\
      roundTrip (nth k (candidates HOME fileName) "") = Some content /\
      "parts/brick.dat" = objectPathOf (prefixAfterHit k fileName) fileName /\
      last (objectsPaths st') = Some "parts/brick.dat" /\
      last (objectsContents st')
        = Some (fileHeader "parts/brick.dat" +:+
                rewriteLines 0 (linesOf content)).
Proof.
  eexists.
  assert (parseObject HOME roundTrip 1 "BRICK.DAT" false emptyStore
          = Some (Some "parts/brick.dat", _)) as Hwalk
    by (vm_compute; reflexivity).
  split; [exact Hwalk|].
  exact (embedded_document HOME roundTrip 1 "BRICK.DAT" emptyStore
           "parts/brick.dat" _ Hwalk).
Defined.

(** The model of the round trip is read directly. *)
Lemma root_read_directly_witness :
  exists r st',
    parseObject HOME roundTrip 2 "/srv/temp/model.ldr" true emptyStore
      = Some (r, st') /\
    r = Some "/srv/temp/model.ldr" /\
    last (objectsContents st')
      = Some (placement "brick.dat" +:+ Js.nl +:+ Js.nl).
Proof.
  do 2 eexists.
  assert (parseObject HOME roundTrip 2 "/srv/temp/model.ldr" true emptyStore
          = Some (_, _)) as Hwalk by (vm_compute; reflexivity).
  split; [exact Hwalk|].
  destruct (root_read_directly HOME roundTrip 2 "/srv/temp/model.ldr"
              (placement "brick.dat" +:+ Js.nl) emptyStore _ _
              eq_refl eq_refl Hwalk) as (Hr & _ & Hdoc & _).
  split; [exact Hr|exact Hdoc].
Defined.

(** The round trip: the document of [brick.dat] carries its header. *)
Lemma embedded_documents_carry_their_header_witness :
  exists r st' paths docs,
    parseObject HOME roundTrip 2 "/srv/temp/model.ldr" true emptyStore
      = Some (r, st') /\
    objectsPaths st' = [] ++ paths /\
    objectsContents st' = [] ++ docs /\
    length paths = 2 /\
    Forall2 headed (removelast paths) (removelast docs).
Proof.
  do 2 eexists.
  assert (parseObject HOME roundTrip 2 "/srv/temp/model.ldr" true emptyStore
          = Some (_, _)) as Hwalk by (vm_compute; reflexivity).
  destruct (embedded_documents_carry_their_header HOME roundTrip 2
              "/srv/temp/model.ldr" true emptyStore _ _ Hwalk)
    as (paths & docs & Hp & Hc & Hh).
  exists paths, docs. split; [exact Hwalk|]. split; [exact Hp|].
  split; [exact Hc|]. split; [|exact Hh].
  apply (f_equal (@length string)) in Hp. exact (eq_sym Hp).
Defined.

(** Two references missing: both are pushed, and both are nowhere. *)
Lemma not_found_names_are_missing_witness :
  exists r st',
    parseObject HOME twoMissing 2 "/srv/temp/model.ldr" true emptyStore
      = Some (r, st') /\
    listOfNotFound st' = ["X.dat"; "Y.dat"] /\
    exists pushed,
      listOfNotFound st' = [] ++ pushed /\
      Forall (nowhere HOME twoMissing) pushed.
Proof.
  do 2 eexists.
  assert (parseObject HOME twoMissing 2 "/srv/temp/model.ldr" true emptyStore
          = Some (_, _)) as Hwalk by (vm_compute; reflexivity).
  split; [exact Hwalk|]. split; [reflexivity|].
  exact (not_found_names_are_missing HOME twoMissing 2 "/srv/temp/model.ldr"
           true emptyStore _ _ Hwalk).
Defined.

(** The round trip: [brick.dat] is mapped to its canonical path. *)
Lemma resolution_map_entries_are_sound_witness :
  exists r st',
    parseObject HOME roundTrip 2 "/srv/temp/model.ldr" true emptyStore
      = Some (r, st') /\
    pathMap st' !! "brick.dat" = Some "parts/brick.dat" /\
    (pathMap emptyStore !! "brick.dat" = Some "parts/brick.dat" \/
     "parts/brick.dat" = "brick.dat" \/
     canonicalPath HOME roundTrip prefixAfterHit "brick.dat"
       = Some "parts/brick.dat").
Proof.
  do 2 eexists.
  assert (parseObject HOME roundTrip 2 "/srv/temp/model.ldr" true emptyStore
          = Some (_, _)) as Hwalk by (vm_compute; reflexivity).
  split; [exact Hwalk|].
  lazymatch type of Hwalk with
  | _ = Some (_, ?s) =>
      assert (pathMap s !! "brick.dat" = Some "parts/brick.dat") as Hentry
        by (vm_compute; reflexivity)
  end.
  split; [exact Hentry|].
  exact (resolution_map_entries_are_sound HOME roundTrip 2
           "/srv/temp/model.ldr" true emptyStore _ _ Hwalk
           "brick.dat" "parts/brick.dat" Hentry).
Defined.

(** [sub.ldr] is placed, searched in vain and pushed on the Not-found list,
    then declared in place: the pack does not report it. *)
Lemma inline_submodel_never_reported_witness :
  exists o log,
    packLDrawModel HOME inlineSubmodel (present inlineSubmodel) readError 2
      "/srv/temp/model.ldr" = Some (o, log) /\
    linesOf (placement "sub.ldr" +:+ Js.nl +:+ "0 FILE sub.ldr" +:+ Js.nl
             +:+ "0 Inline part") !! 1 = Some "0 FILE sub.ldr" /\
    declaredName "0 FILE sub.ldr" = "sub.ldr" /\
    NotFoundPush "sub.ldr" ∈ log /\
    ConsoleMissing "sub.ldr" ∉ log.
Proof.
  do 2 eexists.
  assert (packLDrawModel HOME inlineSubmodel (present inlineSubmodel) readError
            2 "/srv/temp/model.ldr" = Some (_, _)) as Hpack
    by (vm_compute; reflexivity).
  split; [exact Hpack|]. split; [reflexivity|]. split; [reflexivity|].
  split; [do 10 apply list_elem_of_further; apply list_elem_of_here|].
  exact (inline_submodel_never_reported HOME inlineSubmodel
           (present inlineSubmodel) readError 2 "/srv/temp/model.ldr"
           (placement "sub.ldr" +:+ Js.nl +:+ "0 FILE sub.ldr" +:+ Js.nl
            +:+ "0 Inline part") _ _ 1 "0 FILE sub.ldr"
           Hpack eq_refl eq_refl eq_refl ltac:(discriminate) eq_refl eq_refl).
Defined.

(** [sub.ldr] declared in place, then placed: nothing is read. *)
Lemma placement_after_declaration_witness :
  exists st1 st2,
    scanLine (fun n => parseObject HOME noLibrary 1 n false) 1
      "0 FILE sub.ldr" "" emptyStore = Some ("0 FILE sub.ldr" +:+ Js.nl, st1) /\
    scanLines (fun n => parseObject HOME noLibrary 1 n false) 2 ["0 STEP"]
      ("0 FILE sub.ldr" +:+ Js.nl) st1
      = Some ("0 FILE sub.ldr" +:+ Js.nl +:+ "0 STEP" +:+ Js.nl, st2) /\
    effects st1 = [] /\
    scanLine (fun n => parseObject HOME noLibrary 1 n false) 3
      (placement "sub.ldr") "" st2
      = Some (placement "sub.ldr" +:+ Js.nl, st2) /\
    effects st2 = [].
Proof.
  do 2 eexists.
  split; [vm_compute; reflexivity|]. split; [vm_compute; reflexivity|].
  lazymatch goal with
  | |- effects ?s1 = _ /\ scanLine _ _ _ _ ?s2 = _ /\ _ =>
      destruct (placement_after_declaration HOME noLibrary 1 "0 FILE sub.ldr"
                  (placement "sub.ldr") ["0 STEP"] 1 2 ""
                  ("0 FILE sub.ldr" +:+ Js.nl)
                  ("0 FILE sub.ldr" +:+ Js.nl +:+ "0 STEP" +:+ Js.nl)
                  emptyStore s1 s2)
        as [Heffects Hlater];
        [discriminate|reflexivity|reflexivity|vm_compute; reflexivity
        |vm_compute; reflexivity|vm_compute; reflexivity|]
  end.
  split; [exact Heffects|]. split; [apply Hlater|reflexivity].
Defined.

(** Two lines, with CR LF and with LF. *)
Lemma crlf_content_is_walked_as_lf_witness :
  let lf := "0 Untitled" +:+ Js.nl +:+ "0 STEP" in
  let crlf :=
    "0 Untitled" +:+ String Js.CR Js.nl +:+ "0 STEP" in
  Js.hasCRLF lf = false /\ toCRLF lf = crlf /\
  rewriteObject (fun _ _ => None) true (Some crlf) "" "model.ldr" emptyStore
  = rewriteObject (fun _ _ => None) true (Some lf) "" "model.ldr" emptyStore.
Proof.
  intros lf crlf. split; [reflexivity|]. split; [reflexivity|].
  exact (crlf_content_is_walked_as_lf (fun _ _ => None) true lf ""
           "model.ldr" emptyStore eq_refl).
Defined.

(** A placement line and a step, in a file that is not the root: the
    document is the header, the content and a newline. *)
Lemma plain_content_is_kept_witness :
  exists st',
    rewriteObject (fun n => parseObject HOME roundTrip 1 n false) false
      (Some (placement "brick.dat" +:+ Js.nl +:+ "0 STEP"))
      "models/" "car.ldr" emptyStore
    = Some (Some "models/car.ldr", st') /\
    last (objectsContents st')
    = Some ("0 FILE models/car.ldr" +:+ Js.nl +:+
            placement "brick.dat" +:+ Js.nl +:+ "0 STEP" +:+ Js.nl).
Proof.
  eexists.
  assert (rewriteObject (fun n => parseObject HOME roundTrip 1 n false) false
            (Some (placement "brick.dat" +:+ Js.nl +:+ "0 STEP"))
            "models/" "car.ldr" emptyStore
          = Some (Some "models/car.ldr", _)) as Hrewrite
    by (vm_compute; reflexivity).
  split; [exact Hrewrite|].
  refine (proj2 (proj2 (plain_content_is_kept _ false
                          (placement "brick.dat" +:+ Js.nl +:+ "0 STEP")
                          "models/" "car.ldr" emptyStore _ _
                          eq_refl eq_refl _ eq_refl Hrewrite))).
  repeat (constructor; [reflexivity|]). constructor.
Defined.

(** The round trip: the part is read under [parts/], as a candidate of
    [brick.dat], which the model refers to. *)
Lemma pack_reads_are_confined_witness :
  exists o log,
    packLDrawModel HOME roundTrip (present roundTrip) readError 2
      "/srv/temp/model.ldr" = Some (o, log) /\
    Read "/home/u/ldraw/parts/brick.dat" ∈ log /\
    walkedFrom HOME roundTrip "/srv/temp/model.ldr" "brick.dat" /\
    ("/home/u/ldraw/parts/brick.dat"
       = Path.join [ldrawPath HOME; materialsFileName] \/
     "/home/u/ldraw/parts/brick.dat" = "/srv/temp/model.ldr" \/
     exists name,
       (name = "/srv/temp/model.ldr" \/
        walkedFrom HOME roundTrip "/srv/temp/model.ldr" name) /\
       "/home/u/ldraw/parts/brick.dat"
         ∈ candidates HOME name ++ candidates HOME (Js.toLowerCase name)).
Proof.
  do 2 eexists.
  assert (packLDrawModel HOME roundTrip (present roundTrip) readError 2
            "/srv/temp/model.ldr" = Some (_, _)) as Hpack
    by (vm_compute; reflexivity).
  split; [exact Hpack|].
  lazymatch type of Hpack with
  | _ = Some (_, ?l) =>
      assert (Read "/home/u/ldraw/parts/brick.dat" ∈ l) as Hin
        by (do 3 apply list_elem_of_further; apply list_elem_of_here)
  end.
  split; [exact Hin|]. split.
  - apply (walked_by_root HOME roundTrip "/srv/temp/model.ldr"
             (placement "brick.dat" +:+ Js.nl) (placement "brick.dat"));
      [reflexivity|apply list_elem_of_here|reflexivity].
  - exact (pack_reads_are_confined HOME roundTrip (present roundTrip) readError
             2 "/srv/temp/model.ldr" _ _ Hpack _ Hin).
Defined.

(** The path returned for [brick.dat]. *)
Lemma canonical_path_has_no_backslash_witness :
  exists st',
    parseObject HOME roundTrip 1 "brick.dat" false emptyStore
      = Some (Some "parts/brick.dat", st') /\
    ~ occursIn "\"%char "parts/brick.dat".
Proof.
  eexists.
  assert (parseObject HOME roundTrip 1 "brick.dat" false emptyStore
          = Some (Some "parts/brick.dat", _)) as Hwalk
    by (vm_compute; reflexivity).
  split; [exact Hwalk|].
  exact (canonical_path_has_no_backslash HOME roundTrip 1 "brick.dat" false
           emptyStore "parts/brick.dat" _ Hwalk).
Defined.

(** A model of two comment lines. *)
Lemma model_without_references_is_packed_witness :
  packLDrawModel HOME plainModel (present plainModel) readError 1
    "/srv/temp/model.ldr"
  = Some (Packed (materials +:+ Js.nl +:+
                  ("0 Untitled" +:+ Js.nl +:+ "0 STEP" +:+ Js.nl) +:+ Js.nl),
          [Read "/home/u/ldraw/LDConfig.ldr"; Read "/srv/temp/model.ldr"]).
Proof.
  rewrite (model_without_references_is_packed HOME plainModel
             (present plainModel) readError 0 "/srv/temp/model.ldr" materials
             ("0 Untitled" +:+ Js.nl +:+ "0 STEP")
             eq_refl eq_refl eq_refl eq_refl).
  - vm_compute. reflexivity.
  - repeat (constructor; [reflexivity|]). constructor.
Defined.

(** The round trip: rank 1 for a name found as the model, 0 otherwise. *)
Lemma pack_ends_when_references_are_well_founded_witness :
  exists o log,
    packLDrawModel HOME roundTrip (present roundTrip) readError 2
      "/srv/temp/model.ldr" = Some (o, log).
Proof.
  apply (pack_ends_when_references_are_well_founded HOME roundTrip
           (present roundTrip) readError
           (fun name =>
              match foundContent HOME roundTrip name with
              | Some content =>
                  if (content =? placement "brick.dat" +:+ Js.nl)%string
                  then 1 else 0
              | None => 0
              end) 1 "/srv/temp/model.ldr").
  - intros name content raw m Hfound Hraw Hm. rewrite Hfound.
    destruct (foundContent_disk _ _ _ _ Hfound) as [path Hpath].
    unfold roundTrip in Hpath.
    repeat match type of Hpath with
           | (if ?b then _ else _) = _ => destruct b
           end; simplify_eq; vm_compute in Hraw;
      repeat (apply elem_of_cons in Hraw as [->|Hraw];
              [try discriminate Hm|]);
      try (by apply elem_of_nil in Hraw).
    vm_compute in Hm. injection Hm as <-. vm_compute. lia.
  - intros content raw m Hroot Hraw Hm. vm_compute in Hroot.
    injection Hroot as <-. vm_compute in Hraw.
    repeat (apply elem_of_cons in Hraw as [->|Hraw];
            [try discriminate Hm|]);
      try (by apply elem_of_nil in Hraw).
    vm_compute in Hm. injection Hm as <-. vm_compute. lia.
Defined.

